(** * tools/testrunner.py: a shallow embedding of the SOF test runner

    The runner resolves a test case name to a command, spawns it, streams
    its output while a [threading.Timer] and the user's Ctrl-C race with
    the reading loop, and reports through overridable hooks.  The hooks
    print; what is kept of them here is the call and its arguments, in the
    order the calls happen.  The outside world (the file system, the child
    process, the timer thread, the terminal) is a script of stimuli that the
    embedded functions consume.

    Conventions of the embedding:
    - values are dynamically typed, as in Python: a field of a descriptor
      holds whatever the profile held, and an operation on a value of the
      wrong type raises where Python raises;
    - an [Exception] is raised where the types say so ([joinpath], [+],
      [Popen], [math.isfinite]) or where the script says so ([Popen], the
      read, the output hook); Ctrl-C comes where the script says so, in the
      [try] block and during the wait of the interrupt handler;
    - the callback of the timer runs to its end between two steps of the
      main thread;
    - a call can fail to end: the read blocks for ever when the script has
      nothing more for it. *)

From Stdlib Require Import ZArith String Ascii List Bool Lia PrimFloat.
From stdpp Require Import base gmap strings list.

#[local] Set Warnings "-register-all".
#[local] Open Scope Z_scope.

(** ** Python values and exceptions *)

Module Py.

(** What [json.load] can yield: the profile is passed to
    [LocalTestRunner.run] unvalidated, and a dataclass does not check the
    annotations of its fields, so every field is a dynamic value. *)
Inductive PyVal :=
| PNone
| PBool (b : bool)
| PInt (z : Z)
| PFloat (f : float)
| PStr (s : string)
| PList (l : list PyVal)
| PDict (d : gmap string PyVal).

(** The part of the exception hierarchy the runner can meet.
    [KeyboardInterrupt] derives from [BaseException] only, so that
    [except Exception] lets it through. *)
Inductive Exception :=
| TypeError
| KeyError (key : string)
| AttributeError
| OverflowError
| OtherError (detail : string).

Inductive BaseException :=
| KeyboardInterrupt
| Exc (e : Exception).

Inductive Res (A : Type) :=
| Ok (a : A)
| Raise (e : Exception).
Arguments Ok {A} a.
Arguments Raise {A} e.

Definition bind {A B} (r : Res A) (k : A -> Res B) : Res B :=
  match r with
  | Ok a => k a
  | Raise e => Raise e
  end.

(** [bool(v)] *)
Definition truthy (v : PyVal) : bool :=
  match v with
  | PNone => false
  | PBool b => b
  | PInt z => negb (z =? 0)
  | PFloat f => negb (f =? 0)%float
  | PStr s => negb (String.eqb s "")
  | PList l => match l with [] => false | _ => true end
  | PDict d => match map_to_list d with [] => false | _ => true end
  end.

(** [v is not False]: identity with the [False] singleton. *)
Definition is_not_False (v : PyVal) : bool :=
  match v with
  | PBool false => false
  | _ => true
  end.

(** [v.get(key, default)] *)
Definition get (v : PyVal) (key : string) (default : PyVal) : Res PyVal :=
  match v with
  | PDict d => Ok (match d !! key with
                   | Some x => x
                   | None => default
                   end)
  | _ => Raise AttributeError
  end.

(** [v[key]] for a string key *)
Definition getitem (v : PyVal) (key : string) : Res PyVal :=
  match v with
  | PDict d => match d !! key with
               | Some x => Ok x
               | None => Raise (KeyError key)
               end
  | _ => Raise TypeError
  end.

Fixpoint chars (s : string) : list PyVal :=
  match s with
  | EmptyString => []
  | String c s' => PStr (String c EmptyString) :: chars s'
  end.

(** [for x in v]: the items a [for] loop visits.  A dict yields its keys
    (every one a string, so that their order does not matter to [run],
    which subscripts each item with ["name"]). *)
Definition iter (v : PyVal) : Res (list PyVal) :=
  match v with
  | PList l => Ok l
  | PDict d => Ok (PStr <$> (map_to_list d).*1)
  | PStr s => Ok (chars s)
  | _ => Raise TypeError
  end.

(** [{**a, **b}]: the entries of [b] win. *)
Definition merge (a b : PyVal) : Res PyVal :=
  match a, b with
  | PDict da, PDict db => Ok (PDict (db ∪ da))
  | _, _ => Raise TypeError
  end.

End Py.
Export Py.

#[global] Instance Res_ret : MRet Res := @Ok.
#[global] Instance Res_bind : MBind Res := fun _ _ k r => Py.bind r k.

(** ** The operations of [pathlib.PurePosixPath] the runner uses *)

Module PathLib.

(** A path as pathlib keeps it: the root ([""], ["/"] or ["//"]) and the
    segments after it.  Empty segments and ["."] are dropped when a string
    is parsed; [".."] is kept. *)
Record Path := { root : string; parts : list string }.

Fixpoint split_on (sep : ascii) (s : string) : list string :=
  match s with
  | EmptyString => [EmptyString]
  | String c s' =>
      if Ascii.eqb c sep then EmptyString :: split_on sep s'
      else match split_on sep s' with
           | [] => [String c EmptyString]
           | seg :: segs => String c seg :: segs
           end
  end.

Fixpoint leading (c : ascii) (s : string) : nat :=
  match s with
  | EmptyString => 0%nat
  | String a s' => if Ascii.eqb a c then S (leading c s') else 0%nat
  end.

Definition keep_segment (seg : string) : bool :=
  negb (String.eqb seg "") && negb (String.eqb seg ".").

(** [PurePosixPath(s)]: one leading slash or three and more give the root
    ["/"], exactly two give ["//"]. *)
Definition parse (s : string) : Path :=
  {| root := match leading "/" s with
             | 0%nat => ""
             | 2%nat => "//"
             | _ => "/"
             end;
     parts := List.filter keep_segment (split_on "/" s) |}.

(** [p.joinpath(s)]: an absolute [s] replaces [p]. *)
Definition joinpath (p : Path) (s : string) : Path :=
  let q := parse s in
  if String.eqb (root q) "" then {| root := root p; parts := parts p ++ parts q |}
  else q.

(** [p.name]: the last segment, [""] when there is none. *)
Definition name (p : Path) : string := List.last (parts p) "".

(** [s.rfind(c)] *)
Fixpoint rfind (c : ascii) (s : string) : option nat :=
  match s with
  | EmptyString => None
  | String a s' =>
      match rfind c s' with
      | Some i => Some (S i)
      | None => if Ascii.eqb a c then Some 0%nat else None
      end
  end.

Fixpoint string_drop (n : nat) (s : string) : string :=
  match n, s with
  | S n', String _ s' => string_drop n' s'
  | _, _ => s
  end.

(** [p.suffix]: from the last dot of the name on, unless that dot is the
    first or the last character of the name. *)
Definition suffix (p : Path) : string :=
  let n := name p in
  match rfind "." n with
  | Some i => if (0 <? i)%nat && (i <? String.length n - 1)%nat
              then string_drop i n else ""
  | None => ""
  end.

Fixpoint join_segments (l : list string) : string :=
  match l with
  | [] => ""
  | [seg] => seg
  | seg :: rest => seg +:+ "/" +:+ join_segments rest
  end.

(** [os.fspath(p)], which is [str(p)] *)
Definition fspath (p : Path) : string :=
  match root p, parts p with
  | EmptyString, [] => "."
  | r, l => r +:+ join_segments l
  end.

End PathLib.
Export PathLib.

(** ** The command resolver *)

(** [BasicTestRunner.__resolve_cmd(filepath, args)], for a string [args];
    [None] stands for "not resolvable". *)
Definition __resolve_cmd (filepath : Path) (args : string) : option (list string) :=
  let cmd := fspath filepath +:+ " " +:+ args in
  if bool_decide (suffix filepath ∈ [".sh"; ".bash"]) then Some ["bash"; "-c"; cmd]
  else if String.eqb (suffix filepath) ".py" then Some ["python"; "-c"; cmd]
  else None.

(** ** Test case descriptors and the runner object *)

(** [TestCaseInfo]: the fields in the order the dataclass declares them,
    which is the order its positional constructor takes them in. *)
Record TestCaseInfo := {
  name : PyVal;       (* Test case file name (with extension) *)
  args : PyVal;       (* Arguments passed to the test command. *)
  env : PyVal;        (* Environment variables. *)
  timeout : PyVal;    (* Timeout limit in seconds. 0 means no timeout. *)
  skip : PyVal;       (* Whether this test case should be skipped. *)
  skipreason : PyVal  (* Skip reason. *)
}.

(** [BasicTestRunner]: [_timer] holds the interval of the [Timer] object
    when there is one. *)
Record BasicTestRunner := {
  _status : string;
  _timer : option PyVal;
  _case_dir : Path;
  _log_dir : Path;
  dry_run : bool
}.

(** [BasicTestRunner.__init__], with [__SOF_TEST_DIR__] made explicit *)
Definition __init__ (sof_test_dir : Path) (dry : bool) : BasicTestRunner :=
  {| _status := "Idle";
     _timer := None;
     _case_dir := joinpath sof_test_dir "test-case";
     _log_dir := joinpath sof_test_dir "logs";
     dry_run := dry |}.

Definition set_status (self : BasicTestRunner) (st : string) : BasicTestRunner :=
  {| _status := st; _timer := _timer self; _case_dir := _case_dir self;
     _log_dir := _log_dir self; dry_run := dry_run self |}.

Definition set_timer (self : BasicTestRunner) (t : option PyVal) : BasicTestRunner :=
  {| _status := _status self; _timer := t; _case_dir := _case_dir self;
     _log_dir := _log_dir self; dry_run := dry_run self |}.

(** ** What a run does, as a trace *)

(** The hook calls with their arguments, and the calls on the child
    process and on the timer. *)
Inductive Effect :=
| BeforeCmdRun (cmd : list string)              (* _before_cmd_run(cmd) *)
| AfterCmdRun (cmd : list string)               (* _after_cmd_run(cmd) *)
| UnknownException (error : Exception)          (* _handle_unknown_exception(error) *)
| UnknownCase (file : Path)                     (* _handle_unknown_case(file) *)
| Exit (exitcode : option Z) (interrupt : bool) (timeout : option PyVal)
                                                (* _handle_exit(exitcode, interrupt, timeout) *)
| Skip (casename reason : PyVal)                (* _handle_skip(casename, reason) *)
| OutputLine (line : string)                    (* _handle_output_line(line) *)
| Spawn (cmd : list string) (env : PyVal) (cwd : Path)
                                                (* subprocess.Popen created a child *)
| Terminate                                     (* proc.terminate() *)
| Wait (seconds : Z)                            (* proc.wait(seconds) *)
| TimerStart (interval : PyVal)                 (* Timer(...).start() *)
| TimerCancel.                                  (* self._timer.cancel() *)

(** How a call ends: it returns, an exception leaves it, or it never
    comes back (the read blocks on a child that neither writes nor exits). *)
Inductive Ending :=
| Returned
| Raised (e : BaseException)
| Hung.

(** ** The world of one run *)

Inductive Child :=
| Alive
| Exited (returncode : Z).

(** What can happen while the [try] block runs, in the order it happens:
    the read returns a line or the empty string, the child exits, the timer
    thread runs its callback, Ctrl-C reaches the main thread, the statement
    being executed raises. *)
Inductive Stimulus :=
| Line (s : string)
| Eof
| ChildExits (code : Z)
| TimerFires
| Interrupt
| Fault (e : Exception).

Inductive SpawnResult :=
| SpawnOk
| SpawnRaises (e : BaseException).

Record World := { spawn : SpawnResult; script : list Stimulus }.

Definition emit {A} (es : list Effect) (r : list Effect * A) : list Effect * A :=
  (es ++ r.1, r.2).

(** ** One case: [BasicTestRunner.runcase] *)

(** [math.isfinite(t) and t > 0].  [isfinite] converts an int to a float,
    which overflows from [2^1024 - 2^970] on, and refuses what is not a
    number; [True] is the number 1. *)
Definition finite_positive (t : PyVal) : Res bool :=
  match t with
  | PFloat f => Ok (is_finite f && (0 <? f)%float)
  | PInt z => if 2 ^ 1024 - 2 ^ 970 <=? Z.abs z then Raise OverflowError else Ok (0 <? z)
  | PBool b => Ok b
  | _ => Raise TypeError
  end.

Definition is_str (v : PyVal) : bool :=
  match v with
  | PStr _ => true
  | _ => false
  end.

(** What [Popen] does with [env=...] before it forks: [None] inherits the
    environment, a mapping is walked with [.items()] and its values are
    encoded as strings. *)
Definition popen_env (e : PyVal) : Res unit :=
  match e with
  | PNone => Ok ()
  | PDict d => if forallb is_str (map_to_list d).*2 then Ok () else Raise TypeError
  | _ => Raise AttributeError
  end.

(** [_handle_timeout(proc, timeout)], the timer's callback.  It runs on the
    timer thread; here it runs to its end between two steps of the main
    thread. *)
Definition _handle_timeout (proc : option Child) (t : PyVal) : list Effect :=
  match proc with
  | Some Alive => [Terminate; Exit None false (Some t)]
  | _ => []
  end.

(** How the [try] block ends: it runs to its end, an exception is raised in
    it (with the process handle, the timer still to fire and the stimuli
    still to come at that moment), or it blocks. *)
Inductive BodyEnd :=
| BodyDone
| BodyRaised (e : BaseException) (proc : option Child) (timer : option PyVal)
             (rest : list Stimulus)
| BodyBlocked.

(** The [while True] loop and the [_handle_exit(proc.returncode)] after it.
    [timer] is the timeout the timer thread will call back with, while it
    has neither fired nor been cancelled. *)
Fixpoint read_loop (child : Child) (timer : option PyVal) (todo : list Stimulus)
  : list Effect * BodyEnd :=
  match todo with
  | [] => ([], BodyBlocked)
  | Line s :: rest => emit [OutputLine s] (read_loop child timer rest)
  | Eof :: rest =>
      match child with
      | Alive => read_loop child timer rest
      | Exited code =>
          emit [Exit (Some code) false None]
               match rest with
               | Interrupt :: rest' =>
                   ([], BodyRaised KeyboardInterrupt (Some child) timer rest')
               | _ => ([], BodyDone)
               end
      end
  | ChildExits code :: rest =>
      read_loop (match child with Alive => Exited code | _ => child end) timer rest
  | TimerFires :: rest =>
      match timer with
      | Some t => emit (_handle_timeout (Some child) t) (read_loop child None rest)
      | None => read_loop child None rest
      end
  | Interrupt :: rest => ([], BodyRaised KeyboardInterrupt (Some child) timer rest)
  | Fault e :: rest => ([], BodyRaised (Exc e) (Some child) timer rest)
  end.

(** [proc.wait(10)] on a live child: its return code when it exits within
    the grace period, [TimeoutExpired] when nothing more happens, and a
    second Ctrl-C interrupts the wait.  The timer may fire meanwhile; the
    output of the child is not read any more. *)
Inductive WaitResult :=
| WaitCode (code : Z)
| TimeoutExpired
| WaitInterrupted.

Fixpoint wait (timer : option PyVal) (todo : list Stimulus) : list Effect * WaitResult :=
  match todo with
  | [] => ([], TimeoutExpired)
  | ChildExits code :: _ => ([], WaitCode code)
  | Interrupt :: _ => ([], WaitInterrupted)
  | TimerFires :: rest =>
      match timer with
      | Some t => emit (_handle_timeout (Some Alive) t) (wait None rest)
      | None => wait None rest
      end
  | _ :: rest => wait timer rest
  end.

(** [_handle_interrupt(proc)] *)
Definition _handle_interrupt (proc : option Child) (timer : option PyVal)
    (rest : list Stimulus) : list Effect * Ending :=
  match proc with
  | Some Alive =>
      emit [Terminate; Wait 10]
           (let '(tr, w) := wait timer rest in
            match w with
            | WaitCode code => (tr ++ [Exit (Some code) true None], Returned)
            | TimeoutExpired => (tr ++ [Exit None true None], Returned)
            | WaitInterrupted => (tr, Raised KeyboardInterrupt)
            end)
  | _ => ([], Returned)
  end.

(** The body of the [try] statement. *)
Definition try_body (self : BasicTestRunner) (case : TestCaseInfo)
    (cmd : list string) (w : World) : BasicTestRunner * (list Effect * BodyEnd) :=
  match popen_env (env case) with
  | Raise e => (self, ([], BodyRaised (Exc e) None None (script w)))
  | Ok _ =>
      match spawn w with
      | SpawnRaises e => (self, ([], BodyRaised e None None (script w)))
      | SpawnOk =>
          match finite_positive (timeout case) with
          | Raise e =>
              (self, ([Spawn cmd (env case) (_case_dir self)],
                      BodyRaised (Exc e) (Some Alive) None (script w)))
          | Ok true =>
              (set_timer self (Some (timeout case)),
               emit [Spawn cmd (env case) (_case_dir self); TimerStart (timeout case)]
                    (read_loop Alive (Some (timeout case)) (script w)))
          | Ok false =>
              (self, emit [Spawn cmd (env case) (_case_dir self)]
                          (read_loop Alive None (script w)))
          end
      end
  end.

(** The [finally] clause. *)
Definition cleanup (self : BasicTestRunner) (cmd : list string)
  : BasicTestRunner * list Effect :=
  (set_timer self None,
   match _timer self with
   | Some _ => [TimerCancel; AfterCmdRun cmd]
   | None => [AfterCmdRun cmd]
   end).

(** The [try] statement with its handlers. *)
Definition try_statement (self : BasicTestRunner) (case : TestCaseInfo)
    (cmd : list string) (w : World) : BasicTestRunner * list Effect * Ending :=
  let '(self1, (tr, e)) := try_body self case cmd w in
  match e with
  | BodyBlocked => (self1, tr, Hung)
  | BodyDone =>
      let '(self2, fin) := cleanup self1 cmd in (self2, tr ++ fin, Returned)
  | BodyRaised KeyboardInterrupt proc timer rest =>
      let '(trh, r) := _handle_interrupt proc timer rest in
      let '(self2, fin) := cleanup self1 cmd in (self2, tr ++ trh ++ fin, r)
  | BodyRaised (Exc error) _ _ _ =>
      let '(self2, fin) := cleanup self1 cmd in
      (self2, tr ++ [UnknownException error] ++ fin, Returned)
  end.

(** [runcase(case)]; [is_file] answers [Path.is_file()].  A [name] that is
    not a string makes [joinpath] raise, an [args] that is not a string
    makes the [+] of [__resolve_cmd] raise. *)
Definition runcase (self : BasicTestRunner) (is_file : Path -> bool)
    (case : TestCaseInfo) (w : World) : BasicTestRunner * list Effect * Ending :=
  if truthy (skip case) then (self, [Skip (name case) (skipreason case)], Returned)
  else
    match name case with
    | PStr n =>
        let filepath := joinpath (_case_dir self) n in
        match args case with
        | PStr a =>
            match __resolve_cmd filepath a with
            | Some cmd =>
                if negb (String.eqb (PathLib.name filepath) n && is_file filepath)
                then (self, [UnknownCase filepath], Returned)
                else if dry_run self
                then (self, [BeforeCmdRun cmd; Exit (Some 0) false None], Returned)
                else
                  let '(self', tr, r) := try_statement self case cmd w in
                  (self', BeforeCmdRun cmd :: tr, r)
            | None => (self, [UnknownCase filepath], Returned)
            end
        | _ => (self, [], Raised (Exc TypeError))
        end
    | _ => (self, [], Raised (Exc TypeError))
    end.

(** ** The batch: [LocalTestRunner.run] *)

(** The [TestCaseInfo(...)] call of the loop body, its six arguments in the
    order they are written. *)
Definition make_caseinfo (genv case : PyVal) : Res TestCaseInfo :=
  a1 ← getitem case "name";
  a2 ← get case "args" (PStr "");
  a3 ← get case "timeout" (PInt 0);
  e ← get case "env" (PDict ∅);
  a4 ← merge genv e;
  s ← get case "skip" (PBool false);
  a6 ← get case "skip" (PStr "Skipped");
  Ok (Build_TestCaseInfo a1 a2 a3 a4 (PBool (is_not_False s)) a6).

Definition idle_world : World := {| spawn := SpawnOk; script := [] |}.

(** The [for] loop; the n-th case meets the n-th world. *)
Fixpoint run_cases (self : BasicTestRunner) (is_file : Path -> bool) (genv : PyVal)
    (cases : list PyVal) (worlds : list World) : BasicTestRunner * list Effect * Ending :=
  match cases with
  | [] => (self, [], Returned)
  | case :: cases' =>
      match make_caseinfo genv case with
      | Raise e => (self, [], Raised (Exc e))
      | Ok caseinfo =>
          let '(self1, tr, r) := runcase self is_file caseinfo (hd idle_world worlds) in
          match r with
          | Returned =>
              let '(self2, tr', r') := run_cases self1 is_file genv cases' (tl worlds) in
              (self2, tr ++ tr', r')
          | _ => (self1, tr, r)
          end
      end
  end.

(** The body of the [try] statement of [run]. *)
Definition run_body (self : BasicTestRunner) (is_file : Path -> bool) (data : PyVal)
    (worlds : list World) : BasicTestRunner * list Effect * Ending :=
  match get data "env" (PDict ∅) with
  | Raise e => (self, [], Raised (Exc e))
  | Ok genv =>
      let self1 := set_status self "Running" in
      match cases ← getitem data "cases"; iter cases with
      | Raise e => (self1, [], Raised (Exc e))
      | Ok cases => run_cases self1 is_file genv cases worlds
      end
  end.

(** [run(data)]: the [finally] clause runs unless the body never ends. *)
Definition run (self : BasicTestRunner) (is_file : Path -> bool) (data : PyVal)
    (worlds : list World) : BasicTestRunner * list Effect * Ending :=
  let '(self1, tr, r) := run_body self is_file data worlds in
  match r with
  | Hung => (self1, tr, Hung)
  | _ => (set_status self1 "Idle", tr, r)
  end.

(** ** Reading a trace *)

(** The terminal outcomes of the specification: [Exited(code)] is
    [Exit (Some code) false None], [TimedOut(t)] is [Exit None false (Some t)],
    [Interrupted] is [Exit _ true None], and [SpawnOrRuntimeError] is
    [UnknownException]. *)
Definition is_timed_out (e : Effect) : bool :=
  match e with
  | Exit _ _ (Some _) => true
  | _ => false
  end.

(** The outcomes the main thread reports: everything but the timer's. *)
Definition is_own_outcome (e : Effect) : bool :=
  match e with
  | Exit _ _ None => true
  | UnknownException _ => true
  | _ => false
  end.

Definition is_outcome (e : Effect) : bool := is_timed_out e || is_own_outcome e.


Definition is_spawn (e : Effect) : bool :=
  match e with
  | Spawn _ _ _ => true
  | _ => false
  end.

Definition count (p : Effect -> bool) (tr : list Effect) : nat :=
  length (List.filter p tr).

Definition outcomes (tr : list Effect) : list Effect := List.filter is_outcome tr.

Definition is_after_cmd_run (e : Effect) : bool :=
  match e with
  | AfterCmdRun _ => true
  | _ => false
  end.

(** What the reading loop, the timer's callback and the two handlers can
    emit. *)
Definition of_loop (e : Effect) : bool :=
  match e with
  | OutputLine _ | Exit _ _ _ | Terminate | Wait _ | UnknownException _ => true
  | _ => false
  end.

(** The outcomes that can be there before the main thread leaves the loop
    by an exception: the timer's [TimedOut], and the [Exited] that the loop
    reports last. *)
Definition reported_in_loop (e : Effect) : bool :=
  match e with
  | Exit None false (Some _) => true
  | Exit (Some _) false None => true
  | _ => false
  end.

(** What a trace shows of a child that ran: its output, an exit report, a
    termination request, a wait, a timer. *)
Definition of_a_running_child (e : Effect) : bool :=
  match e with
  | OutputLine _ | Exit _ _ _ | Terminate | Wait _ | TimerStart _ => true
  | _ => false
  end.

(** The test of [runcase] that lets a case through to the pre-run hook:
    the command when the name and the arguments are strings, the file is a
    regular file named as requested and its extension is supported. *)
Definition resolved (self : BasicTestRunner) (is_file : Path -> bool)
    (case : TestCaseInfo) : option (list string) :=
  match name case, args case with
  | PStr n, PStr a =>
      let filepath := joinpath (_case_dir self) n in
      if String.eqb (PathLib.name filepath) n && is_file filepath
      then __resolve_cmd filepath a else None
  | _, _ => None
  end.

(** The timer calls back at most once: what the loop lets it report and
    what it can still report afterwards add up to one at most. *)
Definition pending (timer : option PyVal) : nat :=
  match timer with
  | Some _ => 1%nat
  | None => 0%nat
  end.

Definition pending_after (e : BodyEnd) : nat :=
  match e with
  | BodyRaised _ _ timer _ => pending timer
  | _ => 0%nat
  end.



(** ** Sample runs *)

Definition sof_test_dir : Path := parse "/opt/sof-test".

Definition runner : BasicTestRunner := __init__ sof_test_dir false.

Definition dry_runner : BasicTestRunner := __init__ sof_test_dir true.

(** A case directory that holds exactly the files listed. *)
Definition on_disk (files : list string) (p : Path) : bool :=
  bool_decide (fspath p ∈ files).

Definition test_case_dir : Path -> bool :=
  on_disk ["/opt/sof-test/test-case/sleep.sh"; "/opt/sof-test/test-case/notes.txt"].

(** [TestCaseInfo("sleep.sh", "5", {}, 0.2)]; the timeout is the double
    nearest to 0.2. *)
Definition sleep_case : TestCaseInfo :=
  {| name := PStr "sleep.sh"; args := PStr "5"; env := PDict ∅;
     timeout := PFloat 0x1.999999999999ap-3; skip := PBool false;
     skipreason := PStr "" |}.

Definition sleep_cmd : list string :=
  ["bash"; "-c"; "/opt/sof-test/test-case/sleep.sh 5"].

(** The child ignores the termination request of the timer and exits by
    itself later on, with code 0. *)
Definition ignores_sigterm : World :=
  {| spawn := SpawnOk; script := [TimerFires; ChildExits 0; Eof] |}.

(** Ctrl-C while the script sleeps; the child dies of the termination
    request within the grace period. *)
Definition interrupted_alive : World :=
  {| spawn := SpawnOk; script := [Line "start"; Interrupt; ChildExits (-15)] |}.

(** The child has exited by itself, and Ctrl-C comes before the loop has
    seen the end of its output. *)
Definition interrupted_after_exit : World :=
  {| spawn := SpawnOk; script := [Line "start"; ChildExits 0; Interrupt] |}.

(** The timer fires, the child dies of it, and Ctrl-C comes before the loop
    has seen the end of its output. *)
Definition interrupted_after_timeout : World :=
  {| spawn := SpawnOk; script := [TimerFires; ChildExits (-15); Interrupt] |}.

(** The child exits, the loop reports it, and Ctrl-C comes right after the
    report, still inside the [try] block. *)
Definition interrupted_after_report : World :=
  {| spawn := SpawnOk; script := [ChildExits 0; Eof; Interrupt] |}.



(** A JSON object, from its members. *)
Definition obj (members : list (string * PyVal)) : PyVal := PDict (list_to_map members).

(** [{"cases": [{"name": "sleep.sh"}, {"name": "sleep.sh", "args": 5},
                {"name": "sleep.sh"}]}]: the arguments of the second case
    are a number. *)
Definition numeric_args_profile : PyVal :=
  obj [("cases", PList [obj [("name", PStr "sleep.sh")];
                        obj [("name", PStr "sleep.sh"); ("args", PInt 5)];
                        obj [("name", PStr "sleep.sh")]])].

(** [{"env": {"PATH": "/bin"},
      "cases": [{"name": "sleep.sh", "timeout": 5, "env": {"A": "1"}}]}] *)
Definition timeout_profile_case : PyVal :=
  obj [("name", PStr "sleep.sh"); ("timeout", PInt 5); ("env", obj [("A", PStr "1")])].

Definition timeout_profile : PyVal :=
  obj [("env", obj [("PATH", PStr "/bin")]); ("cases", PList [timeout_profile_case])].

(** [{"cases": [{"name": "sleep.sh", "skip": true}]}] *)
Definition skip_true_case : PyVal := obj [("name", PStr "sleep.sh"); ("skip", PBool true)].

Definition skip_true_profile : PyVal := obj [("cases", PList [skip_true_case])].

(** The child prints a line and exits with code 0. *)
Definition exits_normally : World :=
  {| spawn := SpawnOk; script := [Line "ok"; ChildExits 0; Eof] |}.


(** ** Reading a script *)





Definition is_timer_call (e : Effect) : bool :=
  match e with
  | TimerStart _ | TimerCancel => true
  | _ => false
  end.

(** What [runcase] emits when it does not get to the [try] statement. *)
Definition before_try (e : Effect) : bool :=
  match e with
  | Skip _ _ | UnknownCase _ | BeforeCmdRun _ => true
  | Exit (Some 0) false None => true
  | _ => false
  end.

(** The stimuli that only feed the reading loop, and those that neither
    end the child nor the loop. *)
Definition is_output (s : Stimulus) : bool :=
  match s with
  | Line _ | Eof => true
  | _ => false
  end.

Definition is_passive (s : Stimulus) : bool :=
  match s with
  | Line _ | Eof | TimerFires => true
  | _ => false
  end.

(** The effects that show nothing of a termination: no request to
    terminate, no wait, no [TimedOut], no [Interrupted]. *)
Definition is_calm (e : Effect) : bool :=
  match e with
  | Terminate | Wait _ => false
  | Exit _ true _ => false
  | Exit _ _ (Some _) => false
  | _ => true
  end.

(** The return code of the child: the code of its exit, which is the first
    one that the script tells of. *)
Fixpoint first_exit (todo : list Stimulus) : option Z :=
  match todo with
  | [] => None
  | ChildExits code :: _ => Some code
  | _ :: rest => first_exit rest
  end.

(** What the [try] statement can emit. *)
Definition of_try (e : Effect) : bool :=
  match e with
  | Spawn _ _ _ | TimerStart _ | TimerCancel | AfterCmdRun _ => true
  | _ => of_loop e
  end.

Definition is_skip (e : Effect) : bool :=
  match e with
  | Skip _ _ => true
  | _ => false
  end.

(** ** Reading a name *)

(** [c in s] for a character [c] *)
Fixpoint has_char (c : ascii) (s : string) : bool :=
  match s with
  | EmptyString => false
  | String a s' => Ascii.eqb a c || has_char c s'
  end.

(** ** What the hooks print *)

Inductive Stream := Stdout | Stderr.

(** An argument of [print]: a string, which is written as it is, or an
    object of which [str()] is written. *)
Inductive Obj :=
| Text (s : string)
| Value (v : PyVal)
| File (p : Path)
| Error (e : Exception).

(** A call of [print]: its positional arguments, [file] and [end]. *)
Record PrintCall := Print { objects : list Obj; file : Stream; end_ : string }.

Definition newline : string := String (ascii_of_nat 10) EmptyString.

(** [s * n] *)
Fixpoint repeat_string (s : string) (n : nat) : string :=
  match n with
  | O => ""
  | S n' => s +:+ repeat_string s n'
  end.

Definition _before_cmd_run (cmd : list string) : list PrintCall :=
  [Print [Text (repeat_string "=" 20)] Stderr newline;
   Print (Text "cmd:" :: map Text cmd) Stderr newline;
   Print [Text (repeat_string "=" 20)] Stderr newline].

Definition _after_cmd_run (cmd : list string) : list PrintCall := [].

Definition _handle_unknown_exception (error : Exception) : list PrintCall :=
  [Print [Text (repeat_string "=" 20)] Stderr newline;
   Print [Text "Unknown exception:"; Error error] Stderr newline;
   Print [Text (repeat_string "=" 20)] Stderr newline].

Definition _handle_unknown_case (file : Path) : list PrintCall :=
  [Print [Text (repeat_string "=" 20)] Stderr newline;
   Print [Text "Unknown cases:"; File file] Stderr newline;
   Print [Text (repeat_string "=" 20)] Stderr newline].

(** [_handle_exit(exitcode, interrupt, timeout)]; [if exitcode:] is false
    for [None] and for [0]. *)
Definition _handle_exit (exitcode : option Z) (interrupt : bool) (timeout : option PyVal)
    : list PrintCall :=
  [Print [Text (repeat_string "=" 20)] Stderr newline]
  ++ match timeout with
     | None | Some PNone => []
     | Some t => [Print [Text "Test timed out after"; Value t; Text "seconds"] Stderr newline]
     end
  ++ (if interrupt then [Print [Text "Test has been interrupted!"] Stderr newline] else [])
  ++ match exitcode with
     | Some code =>
         if truthy (PInt code) then [Print [Text "Exit code:"; Value (PInt code)] Stderr newline]
         else []
     | None => []
     end
  ++ [Print [Text (repeat_string "=" 20)] Stderr newline].

Definition _handle_skip (casename reason : PyVal) : list PrintCall :=
  [Print [Text (repeat_string "=" 20)] Stderr newline;
   Print [Text "Skip"; Value casename; Text ":"; Value reason] Stderr newline;
   Print [Text (repeat_string "=" 20)] Stderr newline].

Definition _handle_output_line (line : string) : list PrintCall :=
  [Print [Text line] Stdout ""].

(** The hook behind an effect, and what a whole trace prints. *)
Definition hook (e : Effect) : list PrintCall :=
  match e with
  | BeforeCmdRun cmd => _before_cmd_run cmd
  | AfterCmdRun cmd => _after_cmd_run cmd
  | UnknownException error => _handle_unknown_exception error
  | UnknownCase file => _handle_unknown_case file
  | Exit exitcode interrupt timeout => _handle_exit exitcode interrupt timeout
  | Skip casename reason => _handle_skip casename reason
  | OutputLine line => _handle_output_line line
  | Spawn _ _ _ | Terminate | Wait _ | TimerStart _ | TimerCancel => []
  end.

Definition printed (tr : list Effect) : list PrintCall := flat_map hook tr.


(** * Properties *)

(** ** Basic facts *)

Lemma count_app p tr1 tr2 : count p (tr1 ++ tr2) = (count p tr1 + count p tr2)%nat.
Proof. unfold count. now rewrite List.filter_app, length_app. Qed.

Lemma count_cons p e tr :
  count p (e :: tr) = ((if p e then 1 else 0) + count p tr)%nat.
Proof. unfold count. simpl. now destruct (p e). Qed.

Lemma count_nil p : count p [] = 0%nat.
Proof. reflexivity. Qed.


(** A resolved, non-skipped case reaches the pre-run hook, and then either
    the dry-run exit or the [try] statement. *)
Lemma runcase_resolved self is_file case cmd w :
  truthy (skip case) = false ->
  resolved self is_file case = Some cmd ->
  runcase self is_file case w =
    if dry_run self then (self, [BeforeCmdRun cmd; Exit (Some 0) false None], Returned)
    else let '(self', tr, r) := try_statement self case cmd w in
         (self', BeforeCmdRun cmd :: tr, r).
Proof.
  intros Hskip Hres. unfold runcase, resolved in *. rewrite Hskip.
  destruct (name case) as [| | | |n| |]; try discriminate.
  destruct (args case) as [| | | |a| |]; try discriminate.
  destruct (String.eqb _ n && is_file _); [|discriminate].
  simpl in Hres. now rewrite Hres.
Qed.

(** ** The resolver *)

Lemma resolve_cmd_unsupported (filepath : Path) (a : string) :
  suffix filepath ∉ [".sh"; ".bash"; ".py"] -> __resolve_cmd filepath a = None.
Proof.
  unfold __resolve_cmd. rewrite !not_elem_of_cons. intros (Hsh & Hbash & Hpy & _).
  rewrite bool_decide_eq_false_2.
  - destruct (String.eqb_spec (suffix filepath) ".py"); [contradiction|reflexivity].
  - rewrite !not_elem_of_cons. auto using not_elem_of_nil.
Qed.

(** C6. The resolver answers a [.sh] or [.bash] path with
    [bash -c "<path> <args>"], a [.py] path with [python -c "<path> <args>"],
    and every other extension with "not resolvable". *)
Theorem resolve_cmd_by_extension (filepath : Path) (a : string) :
  (suffix filepath = ".sh" \/ suffix filepath = ".bash" ->
   __resolve_cmd filepath a = Some ["bash"; "-c"; fspath filepath +:+ " " +:+ a]) /\
  (suffix filepath = ".py" ->
   __resolve_cmd filepath a = Some ["python"; "-c"; fspath filepath +:+ " " +:+ a]) /\
  (suffix filepath ∉ [".sh"; ".bash"; ".py"] -> __resolve_cmd filepath a = None).
Proof.
  unfold __resolve_cmd. repeat split.
  - intros H. rewrite bool_decide_eq_true_2; [reflexivity|].
    rewrite !elem_of_cons. tauto.
  - intros H. rewrite H. reflexivity.
  - apply resolve_cmd_unsupported.
Qed.

Example resolve_cmd_sh :
  __resolve_cmd (parse "/opt/sof-test/test-case/check-ipc.sh") "-l 3"
  = Some ["bash"; "-c"; "/opt/sof-test/test-case/check-ipc.sh -l 3"].
Proof. reflexivity. Qed.

Example resolve_cmd_hidden_file :
  __resolve_cmd (parse "/opt/sof-test/test-case/.sh") "" = None.
Proof. reflexivity. Qed.

(** ** Unknown cases *)



(** ** Counting outcomes along the reading loop *)

Lemma handle_timeout_timed_out proc t : (count is_timed_out (_handle_timeout proc t) <= 1)%nat.
Proof. destruct proc as [[|c]|]; simpl; unfold count; simpl; lia. Qed.


Lemma read_loop_timed_out todo : forall child timer,
  (count is_timed_out (read_loop child timer todo).1
   + pending_after (read_loop child timer todo).2 <= pending timer)%nat.
Proof.
  induction todo as [|s rest IH]; intros child timer; simpl; [lia|].
  destruct s as [l| |code| | |e]; simpl.
  - rewrite count_cons. simpl. apply IH.
  - destruct child as [|code]; [apply IH|]. simpl.
    destruct rest as [|[] ?]; simpl; unfold count; simpl; lia.
  - apply IH.
  - destruct timer as [t|]; [|apply IH]. simpl.
    rewrite count_app.
    pose proof (handle_timeout_timed_out (Some child) t).
    pose proof (IH child None). simpl in *. lia.
  - unfold count. simpl. lia.
  - unfold count. simpl. lia.
Qed.

Lemma wait_timed_out todo : forall timer,
  (count is_timed_out (wait timer todo).1 <= pending timer)%nat.
Proof.
  induction todo as [|s rest IH]; intros timer; simpl; [unfold count; simpl; lia|].
  destruct s as [l| |code| | |e]; simpl; try apply IH; try (unfold count; simpl; lia).
  destruct timer as [t|]; [|apply IH]. simpl. rewrite !count_cons.
  pose proof (IH None). simpl in *. lia.
Qed.


Lemma handle_interrupt_timed_out proc timer rest :
  (count is_timed_out (_handle_interrupt proc timer rest).1 <= pending timer)%nat.
Proof.
  unfold _handle_interrupt. destruct proc as [[|c]|]; simpl; try (unfold count; simpl; lia).
  pose proof (wait_timed_out rest timer) as H.
  destruct (wait timer rest) as [tr [code| |]]; simpl in *;
    rewrite ?count_cons, ?count_app, ?count_cons, ?count_nil; simpl; lia.
Qed.










Example sleep_case_timed_out :
  runcase runner test_case_dir sleep_case ignores_sigterm
  = (runner,
     [BeforeCmdRun sleep_cmd;
      Spawn sleep_cmd (PDict ∅) (parse "/opt/sof-test/test-case");
      TimerStart (PFloat 0x1.999999999999ap-3);
      Terminate;
      Exit None false (Some (PFloat 0x1.999999999999ap-3));
      Exit (Some 0) false None;
      TimerCancel;
      AfterCmdRun sleep_cmd],
     Returned).
Proof. vm_compute. reflexivity. Qed.

(** ** How many terminal outcomes a run has *)




(** ** The hooks around a run *)

Lemma handle_timeout_of_loop proc t :
  Forall (fun e => of_loop e = true) (_handle_timeout proc t).
Proof. destruct proc as [[|c]|]; simpl; repeat constructor. Qed.

Lemma read_loop_of_loop todo : forall child timer,
  Forall (fun e => of_loop e = true) (read_loop child timer todo).1.
Proof.
  induction todo as [|s rest IH]; intros child timer; [constructor|].
  destruct s as [l| |code| | |e]; simpl; try apply IH; try constructor; try apply IH.
  - reflexivity.
  - destruct child as [|code]; [apply IH|].
    simpl. destruct rest as [|[] ?]; simpl; repeat constructor.
  - destruct timer as [t|]; [|apply IH].
    apply Forall_app. split; [apply (handle_timeout_of_loop (Some child) t)|apply IH].
Qed.

Lemma wait_of_loop todo : forall timer,
  Forall (fun e => of_loop e = true) (wait timer todo).1.
Proof.
  induction todo as [|s rest IH]; intros timer; [constructor|].
  destruct s as [l| |code| | |e]; simpl; try apply IH; try constructor.
  destruct timer as [t|]; [|apply IH].
  apply Forall_app. split; [apply (handle_timeout_of_loop (Some Alive) t)|apply IH].
Qed.

Lemma handle_interrupt_of_loop proc timer rest :
  Forall (fun e => of_loop e = true) (_handle_interrupt proc timer rest).1.
Proof.
  unfold _handle_interrupt. destruct proc as [[|c]|]; [|constructor..].
  pose proof (wait_of_loop rest timer) as H.
  destruct (wait timer rest) as [tr [code| |]]; cbn [fst snd emit app] in *;
    repeat (apply Forall_cons; split; [reflexivity|]);
    rewrite ?Forall_app; repeat split; auto; repeat constructor.
Qed.








(** ** Ctrl-C *)

(** C4. When [KeyboardInterrupt] is raised in the [try] block while the
    child is alive, the handler asks it to terminate and waits for it with
    a timeout of 10; it then reports [Interrupted] with the return code
    when the child exited in time, and [Interrupted] without a code when
    the wait timed out.  When the child has already exited (in particular
    when the loop has already reported [Exited]), the handler emits nothing:
    the trace goes on with the cleanup. *)
Theorem interrupt_handling self is_file case cmd w self1 effs proc timer rest :
  truthy (skip case) = false ->
  resolved self is_file case = Some cmd ->
  dry_run self = false ->
  try_body self case cmd w
  = (self1, (effs, BodyRaised KeyboardInterrupt (Some proc) timer rest)) ->
  match proc with
  | Alive =>
      let start := BeforeCmdRun cmd :: effs ++ [Terminate; Wait 10] ++ (wait timer rest).1 in
      match (wait timer rest).2 with
      | WaitCode code =>
          (runcase self is_file case w).1.2
          = start ++ Exit (Some code) true None :: (cleanup self1 cmd).2 /\
          (runcase self is_file case w).2 = Returned
      | TimeoutExpired =>
          (runcase self is_file case w).1.2
          = start ++ Exit None true None :: (cleanup self1 cmd).2 /\
          (runcase self is_file case w).2 = Returned
      | WaitInterrupted =>
          (runcase self is_file case w).1.2 = start ++ (cleanup self1 cmd).2 /\
          (runcase self is_file case w).2 = Raised KeyboardInterrupt
      end
  | Exited code =>
      (runcase self is_file case w).1.2 = BeforeCmdRun cmd :: effs ++ (cleanup self1 cmd).2 /\
      (runcase self is_file case w).2 = Returned
  end.
Proof.
  intros Hskip Hres Hdry Hbody.
  rewrite (runcase_resolved _ _ _ cmd) by assumption. rewrite Hdry.
  unfold try_statement. rewrite Hbody. unfold _handle_interrupt.
  destruct proc as [|code].
  - destruct (wait timer rest) as [during [code| |]];
      destruct (cleanup self1 cmd) as [self2 fin]; cbn [fst snd emit app];
      rewrite <- ?app_assoc; auto.
  - destruct (cleanup self1 cmd) as [self2 fin]. auto.
Qed.

Lemma interrupt_handling_witness :
  ((runcase runner test_case_dir sleep_case interrupted_alive).1.2
   = [BeforeCmdRun sleep_cmd;
      Spawn sleep_cmd (PDict ∅) (parse "/opt/sof-test/test-case");
      TimerStart (PFloat 0x1.999999999999ap-3);
      OutputLine "start";
      Terminate; Wait 10;
      Exit (Some (-15)) true None;
      TimerCancel; AfterCmdRun sleep_cmd] /\
   (runcase runner test_case_dir sleep_case interrupted_alive).2 = Returned) /\
  ((runcase runner test_case_dir sleep_case interrupted_after_report).1.2
   = [BeforeCmdRun sleep_cmd;
      Spawn sleep_cmd (PDict ∅) (parse "/opt/sof-test/test-case");
      TimerStart (PFloat 0x1.999999999999ap-3);
      Exit (Some 0) false None;
      TimerCancel; AfterCmdRun sleep_cmd] /\
   (runcase runner test_case_dir sleep_case interrupted_after_report).2 = Returned).
Proof.
  split.
  - exact (interrupt_handling runner test_case_dir sleep_case sleep_cmd interrupted_alive
             _ _ Alive _ _ eq_refl eq_refl eq_refl eq_refl).
  - exact (interrupt_handling runner test_case_dir sleep_case sleep_cmd
             interrupted_after_report
             _ _ (Exited 0) _ _ eq_refl eq_refl eq_refl eq_refl).
Defined.

Lemma read_loop_has_proc todo : forall child timer e proc timer' rest,
  (read_loop child timer todo).2 = BodyRaised e proc timer' rest -> proc ≠ None.
Proof.
  induction todo as [|s todo' IH]; intros child timer e proc timer' rest; [discriminate|].
  destruct s as [l| |code| | |err]; simpl; try apply IH.
  - destruct child as [|code]; [apply IH|]. simpl.
    destruct todo' as [|[] ?]; simpl; congruence.
  - destruct timer; apply IH.
  - congruence.
  - congruence.
Qed.

Lemma read_loop_reports todo : forall child timer,
  Forall (fun e => is_outcome e = true -> reported_in_loop e = true)
         (read_loop child timer todo).1.
Proof.
  induction todo as [|s rest IH]; intros child timer; [constructor|].
  destruct s as [l| |code| | |e]; simpl; try apply IH; try constructor; try apply IH.
  - discriminate.
  - destruct child as [|code]; [apply IH|].
    simpl. destruct rest as [|[] ?]; simpl; repeat constructor.
  - destruct timer as [t|]; [|apply IH].
    apply Forall_app. split; [|apply IH].
    destruct child; simpl; repeat constructor. discriminate.
Qed.

(** An exception leaves the body of the [try] statement without a process
    handle only when nothing has been emitted yet. *)
Lemma try_body_no_proc self case cmd w self1 effs e timer rest :
  try_body self case cmd w = (self1, (effs, BodyRaised e None timer rest)) -> effs = [].
Proof.
  unfold try_body.
  destruct (popen_env (env case)); [|congruence].
  destruct (spawn w); [|congruence].
  destruct (finite_positive (timeout case)) as [[|]|]; [| |congruence].
  - intros H.
    pose proof (read_loop_has_proc (script w) Alive (Some (timeout case))) as Hp.
    destruct (read_loop Alive (Some (timeout case)) (script w)) as [tr e'].
    cbn [emit fst snd] in *. injection H as _ _ He'. now destruct (Hp _ _ _ _ He').
  - intros H.
    pose proof (read_loop_has_proc (script w) Alive None) as Hp.
    destruct (read_loop Alive None (script w)) as [tr e'].
    cbn [emit fst snd] in *. injection H as _ _ He'. now destruct (Hp _ _ _ _ He').
Qed.

Lemma try_body_reports self case cmd w :
  Forall (fun e => is_outcome e = true -> reported_in_loop e = true)
         (try_body self case cmd w).2.1.
Proof.
  unfold try_body.
  destruct (popen_env (env case)); [|constructor].
  destruct (spawn w); [|constructor].
  destruct (finite_positive (timeout case)) as [[|]|]; cbn [emit fst snd app].
  - repeat (constructor; [discriminate|]). apply read_loop_reports.
  - repeat (constructor; [discriminate|]). apply read_loop_reports.
  - repeat constructor. discriminate.
Qed.

Lemma outcomes_app tr1 tr2 : outcomes (tr1 ++ tr2) = outcomes tr1 ++ outcomes tr2.
Proof. apply List.filter_app. Qed.

Lemma cleanup_outcomes self cmd : outcomes (cleanup self cmd).2 = [].
Proof. unfold cleanup. now destruct (_timer self). Qed.

Lemma cleanup_last self cmd tr : last (tr ++ (cleanup self cmd).2) = Some (AfterCmdRun cmd).
Proof.
  unfold cleanup. destruct (_timer self); cbn [snd].
  - change [TimerCancel; AfterCmdRun cmd] with ([TimerCancel] ++ [AfterCmdRun cmd]).
    now rewrite app_assoc, last_snoc.
  - now rewrite last_snoc.
Qed.

(** C10, as the code has it.  When [KeyboardInterrupt] is raised in the
    [try] block and there is no live child (no process handle yet, or a
    child that has exited), the handler emits nothing: [runcase] goes on
    with the cleanup and the post-run hook and returns.  The terminal
    outcomes of the run are those that were there before: none when the
    spawning was interrupted, and otherwise nothing but a [TimedOut] of the
    timer or the [Exited] that the loop had just reported. *)
Theorem interrupt_without_live_child self is_file case cmd w self1 effs proc timer rest :
  truthy (skip case) = false ->
  resolved self is_file case = Some cmd ->
  dry_run self = false ->
  try_body self case cmd w = (self1, (effs, BodyRaised KeyboardInterrupt proc timer rest)) ->
  proc ≠ Some Alive ->
  runcase self is_file case w
  = (set_timer self1 None, BeforeCmdRun cmd :: effs ++ (cleanup self1 cmd).2, Returned) /\
  last (runcase self is_file case w).1.2 = Some (AfterCmdRun cmd) /\
  outcomes (runcase self is_file case w).1.2 = outcomes effs /\
  Forall (fun e => reported_in_loop e = true) (outcomes effs) /\
  (proc = None -> outcomes (runcase self is_file case w).1.2 = []).
Proof.
  intros Hskip Hres Hdry Hbody Hproc.
  assert (runcase self is_file case w
          = (set_timer self1 None, BeforeCmdRun cmd :: effs ++ (cleanup self1 cmd).2,
             Returned)) as E.
  { rewrite (runcase_resolved _ _ _ cmd) by assumption. rewrite Hdry.
    unfold try_statement. rewrite Hbody. unfold _handle_interrupt.
    destruct proc as [[|code]|]; [contradiction|reflexivity..]. }
  assert (outcomes (runcase self is_file case w).1.2 = outcomes effs) as Eo.
  { rewrite E. cbn [fst snd].
    change (BeforeCmdRun cmd :: effs ++ (cleanup self1 cmd).2)
      with ([BeforeCmdRun cmd] ++ effs ++ (cleanup self1 cmd).2).
    rewrite !outcomes_app, cleanup_outcomes, app_nil_r. reflexivity. }
  split; [exact E|]. split; [|split; [exact Eo|split]].
  - rewrite E. cbn [fst snd].
    apply (cleanup_last self1 cmd (BeforeCmdRun cmd :: effs)).
  - pose proof (try_body_reports self case cmd w) as H. rewrite Hbody in H.
    cbn [fst snd] in H. rewrite Forall_forall in H. apply Forall_forall.
    intros e He. unfold outcomes in He.
    apply list_elem_of_In, List.filter_In in He as [He1 He2].
    apply H; [now apply list_elem_of_In|exact He2].
  - intros ->. rewrite Eo.
    now rewrite (try_body_no_proc _ _ _ _ _ _ _ _ _ Hbody).
Qed.

Lemma interrupt_without_live_child_witness :
  runcase runner test_case_dir sleep_case interrupted_after_exit
  = (runner,
     [BeforeCmdRun sleep_cmd;
      Spawn sleep_cmd (PDict ∅) (parse "/opt/sof-test/test-case");
      TimerStart (PFloat 0x1.999999999999ap-3);
      OutputLine "start";
      TimerCancel; AfterCmdRun sleep_cmd],
     Returned).
Proof.
  refine (proj1 (interrupt_without_live_child runner test_case_dir sleep_case sleep_cmd
                   interrupted_after_exit _ _ (Some (Exited 0)) _ _
                   eq_refl eq_refl eq_refl eq_refl _)).
  discriminate.
Defined.

(** C10 as it is worded fails in two ways.  When the timer has fired
    before, the child has exited (of the timer's termination request),
    Ctrl-C finds it dead and the handler emits nothing, but the run does
    not end with zero terminal outcomes: [TimedOut(0.2)] is there.  And
    when Ctrl-C comes right after the loop reported the exit, the run ends
    with that [Exited(0)]. *)
Lemma interrupt_after_timeout_keeps_timed_out :
  (try_body runner sleep_case sleep_cmd interrupted_after_timeout
   = (set_timer runner (Some (PFloat 0x1.999999999999ap-3)),
      ([Spawn sleep_cmd (PDict ∅) (parse "/opt/sof-test/test-case");
        TimerStart (PFloat 0x1.999999999999ap-3);
        Terminate;
        Exit None false (Some (PFloat 0x1.999999999999ap-3))],
       BodyRaised KeyboardInterrupt (Some (Exited (-15))) None [])) /\
   outcomes (runcase runner test_case_dir sleep_case interrupted_after_timeout).1.2
   = [Exit None false (Some (PFloat 0x1.999999999999ap-3))] /\
   count is_outcome (runcase runner test_case_dir sleep_case interrupted_after_timeout).1.2
   ≠ 0%nat) /\
  ((try_body runner sleep_case sleep_cmd interrupted_after_report).2.2
   = BodyRaised KeyboardInterrupt (Some (Exited 0)) (Some (PFloat 0x1.999999999999ap-3)) [] /\
   outcomes (runcase runner test_case_dir sleep_case interrupted_after_report).1.2
   = [Exit (Some 0) false None] /\
   count is_outcome (runcase runner test_case_dir sleep_case interrupted_after_report).1.2
   ≠ 0%nat).
Proof. vm_compute. repeat split; try reflexivity; discriminate. Qed.

(** ** Exceptions *)

Lemma handle_interrupt_ending proc timer rest :
  (_handle_interrupt proc timer rest).2 = Returned \/
  (_handle_interrupt proc timer rest).2 = Raised KeyboardInterrupt.
Proof.
  unfold _handle_interrupt. destruct proc as [[|c]|]; auto.
  destruct (wait timer rest) as [tr [code| |]]; auto.
Qed.





(** ** The status of the runner *)

Lemma try_body_status self case cmd w :
  _status (try_body self case cmd w).1 = _status self.
Proof.
  unfold try_body.
  destruct (popen_env (env case)); [|reflexivity].
  destruct (spawn w); [|reflexivity].
  now destruct (finite_positive (timeout case)) as [[|]|].
Qed.

Lemma try_statement_status self case cmd w :
  _status (try_statement self case cmd w).1.1 = _status self.
Proof.
  pose proof (try_body_status self case cmd w) as H.
  unfold try_statement.
  destruct (try_body self case cmd w) as [self1 [tr e]]. cbn [fst] in H.
  destruct e as [|[|err] proc timer rest|]; cbn [cleanup fst]; try exact H.
  now destruct (_handle_interrupt proc timer rest).
Qed.

(** [runcase] does not touch the status. *)
Lemma runcase_status self is_file case w :
  _status (runcase self is_file case w).1.1 = _status self.
Proof.
  unfold runcase.
  destruct (truthy (skip case)); [reflexivity|].
  destruct (name case); try reflexivity.
  destruct (args case); try reflexivity.
  destruct (__resolve_cmd _ _) as [cmd|]; [|reflexivity].
  destruct (negb _); [reflexivity|].
  destruct (dry_run self); [reflexivity|].
  pose proof (try_statement_status self case cmd w) as H.
  now destruct (try_statement self case cmd w) as [[self' tr] r].
Qed.

Lemma run_cases_status is_file genv cases : forall self worlds,
  _status (run_cases self is_file genv cases worlds).1.1 = _status self.
Proof.
  induction cases as [|case cases IH]; intros self worlds; [reflexivity|].
  simpl. destruct (make_caseinfo genv case) as [caseinfo|e]; [|reflexivity].
  pose proof (runcase_status self is_file caseinfo (hd idle_world worlds)) as H.
  destruct (runcase self is_file caseinfo (hd idle_world worlds)) as [[self1 tr] r].
  cbn [fst] in H.
  destruct r; try exact H.
  specialize (IH self1 (tl worlds)).
  destruct (run_cases self1 is_file genv cases (tl worlds)) as [[self2 tr'] r'].
  cbn [fst] in *. congruence.
Qed.

(** C8. A runner is born [Idle]; [run] sets the status to [Running] once
    it has read the global environment, and the status stays so to the end
    of the [try] body; and whenever [run] ends, by returning or by an
    exception that leaves the loop, the status is [Idle] again. *)
Theorem run_status self is_file data worlds :
  (forall dir dry, _status (__init__ dir dry) = "Idle") /\
  (forall genv, get data "env" (PDict ∅) = Ok genv ->
                _status (run_body self is_file data worlds).1.1 = "Running") /\
  ((run self is_file data worlds).2 ≠ Hung ->
   _status (run self is_file data worlds).1.1 = "Idle").
Proof.
  split; [reflexivity|]. split.
  - intros genv Hget. unfold run_body. rewrite Hget.
    destruct (_ ← getitem data "cases"; iter _) as [cases|e]; [|reflexivity].
    apply run_cases_status.
  - unfold run.
    destruct (run_body self is_file data worlds) as [[self1 tr] r]. cbn [fst snd].
    now destruct r.
Qed.

Lemma run_status_witness :
  run runner test_case_dir numeric_args_profile [exits_normally]
  = (runner,
     [BeforeCmdRun ["bash"; "-c"; "/opt/sof-test/test-case/sleep.sh "];
      UnknownException AttributeError;
      AfterCmdRun ["bash"; "-c"; "/opt/sof-test/test-case/sleep.sh "]],
     Raised (Exc TypeError)) /\
  _status (run runner test_case_dir numeric_args_profile [exits_normally]).1.1 = "Idle".
Proof.
  split; [vm_compute; reflexivity|].
  apply (run_status runner test_case_dir numeric_args_profile [exits_normally]).
  vm_compute. discriminate.
Defined.

(** ** The descriptors that the batch builds *)

(** What [run] puts into the fields of [TestCaseInfo] for an entry that is
    a JSON object [d] with a name: the timeout of the entry lands in [env],
    the merged environment in [timeout], and the reason of a skip is the
    value of [skip] itself. *)
Lemma make_caseinfo_fields genv (d : gmap string PyVal) caseinfo :
  make_caseinfo genv (PDict d) = Ok caseinfo ->
  d !! "name" = Some (name caseinfo) /\
  args caseinfo = default (PStr "") (d !! "args") /\
  env caseinfo = default (PInt 0) (d !! "timeout") /\
  merge genv (default (PDict ∅) (d !! "env")) = Ok (timeout caseinfo) /\
  skip caseinfo = PBool (is_not_False (default (PBool false) (d !! "skip"))) /\
  skipreason caseinfo = default (PStr "Skipped") (d !! "skip").
Proof.
  unfold make_caseinfo. cbn [getitem get mbind Res_bind Py.bind].
  destruct (d !! "name") as [n|]; [|discriminate]. cbn [Py.bind].
  destruct (merge genv _) as [m|] eqn:Hm; [|discriminate]. cbn [Py.bind].
  intros [= <-]. cbn.
  destruct (d !! "args"), (d !! "timeout"), (d !! "skip"); repeat split; auto.
Qed.

(** C2 at the profile
    [{"env": {"PATH": "/bin"},
      "cases": [{"name": "sleep.sh", "timeout": 5, "env": {"A": "1"}}]}]:
    the descriptor has the number 5 as its environment and the merged
    environment as its timeout, so that [Popen] raises on the environment
    and the case is never run. *)
Theorem run_swaps_env_and_timeout :
  make_caseinfo (obj [("PATH", PStr "/bin")]) timeout_profile_case
  = Ok {| name := PStr "sleep.sh"; args := PStr "";
          env := PInt 5;
          timeout := obj [("A", PStr "1"); ("PATH", PStr "/bin")];
          skip := PBool false; skipreason := PStr "Skipped" |} /\
  run runner test_case_dir timeout_profile [exits_normally]
  = (runner,
     [BeforeCmdRun ["bash"; "-c"; "/opt/sof-test/test-case/sleep.sh "];
      UnknownException AttributeError;
      AfterCmdRun ["bash"; "-c"; "/opt/sof-test/test-case/sleep.sh "]],
     Returned).
Proof. vm_compute. split; reflexivity. Qed.

(** C9 at the profile [{"cases": [{"name": "sleep.sh", "skip": true}]}]:
    the case is skipped, and the reason handed to [_handle_skip] is [True],
    not ["Skipped"]. *)
Theorem skip_true_has_reason_true :
  make_caseinfo (PDict ∅) skip_true_case
  = Ok {| name := PStr "sleep.sh"; args := PStr "";
          env := PInt 0; timeout := PDict ∅;
          skip := PBool true; skipreason := PBool true |} /\
  run runner test_case_dir skip_true_profile []
  = (runner, [Skip (PStr "sleep.sh") (PBool true)], Returned).
Proof. vm_compute. split; reflexivity. Qed.

(** The two parts of C9 that hold: every value of [skip] other than [False]
    marks the case skipped, and the reason is that value, a string when the
    value is one. *)
Lemma skip_value_is_reason genv (d : gmap string PyVal) caseinfo v :
  make_caseinfo genv (PDict d) = Ok caseinfo ->
  d !! "skip" = Some v ->
  skip caseinfo = PBool (is_not_False v) /\ skipreason caseinfo = v.
Proof.
  intros H Hv. apply make_caseinfo_fields in H as (_ & _ & _ & _ & Hs & Hr).
  rewrite Hv in Hs, Hr. auto.
Qed.

(** The consequence of the swap for a whole batch that is really run: the
    timeout of every descriptor is a dict, on which [math.isfinite] raises
    if [Popen] has not raised on the environment before; the reading loop is
    never entered, and no case ever shows output or an exit code. *)
Lemma merged_timeout_is_no_number genv e m :
  merge genv e = Ok m -> finite_positive m = Raise TypeError.
Proof. destruct genv, e; try discriminate. now intros [= <-]. Qed.

Lemma try_statement_of_batch self case cmd w :
  finite_positive (timeout case) = Raise TypeError ->
  Forall (fun e => of_a_running_child e = false) (try_statement self case cmd w).1.2 /\
  dry_run (try_statement self case cmd w).1.1 = dry_run self.
Proof.
  intros Hfp. unfold try_statement, try_body, cleanup. rewrite Hfp.
  destruct (popen_env (env case)); [destruct (spawn w) as [|[|e]]|];
    cbn; destruct (_timer self); split; repeat constructor.
Qed.

Lemma runcase_of_batch self is_file case w :
  dry_run self = false ->
  finite_positive (timeout case) = Raise TypeError ->
  Forall (fun e => of_a_running_child e = false) (runcase self is_file case w).1.2 /\
  dry_run (runcase self is_file case w).1.1 = false.
Proof.
  intros Hdry Hfp. unfold runcase.
  destruct (truthy (skip case)); [split; [repeat constructor|assumption]|].
  destruct (name case); try (split; [constructor|assumption]).
  destruct (args case); try (split; [constructor|assumption]).
  destruct (__resolve_cmd _ _) as [cmd|]; [|split; [repeat constructor|assumption]].
  destruct (negb _); [split; [repeat constructor|assumption]|].
  rewrite Hdry.
  destruct (try_statement_of_batch self case cmd w Hfp) as [H1 H2].
  destruct (try_statement self case cmd w) as [[self' tr] r]. cbn [fst snd] in *.
  split; [constructor; [reflexivity|assumption]|congruence].
Qed.

Lemma run_cases_of_batch is_file genv cases : forall self worlds,
  dry_run self = false ->
  Forall (fun e => of_a_running_child e = false)
         (run_cases self is_file genv cases worlds).1.2.
Proof.
  induction cases as [|case cases IH]; intros self worlds Hdry; [constructor|].
  simpl. destruct (make_caseinfo genv case) as [caseinfo|e] eqn:Hmk; [|constructor].
  assert (finite_positive (timeout caseinfo) = Raise TypeError) as Hfp.
  { destruct case; try discriminate.
    apply make_caseinfo_fields in Hmk as (_ & _ & _ & Hm & _).
    now apply merged_timeout_is_no_number in Hm. }
  destruct (runcase_of_batch self is_file caseinfo (hd idle_world worlds) Hdry Hfp)
    as [H1 H2].
  destruct (runcase self is_file caseinfo (hd idle_world worlds)) as [[self1 tr] r].
  cbn [fst snd] in *.
  destruct r; try exact H1.
  specialize (IH self1 (tl worlds) H2).
  destruct (run_cases self1 is_file genv cases (tl worlds)) as [[self2 tr'] r'].
  cbn [fst snd] in *. apply Forall_app. auto.
Qed.

Theorem batch_never_runs_a_case_through self is_file data worlds :
  dry_run self = false ->
  Forall (fun e => of_a_running_child e = false) (run self is_file data worlds).1.2.
Proof.
  intros Hdry. unfold run, run_body.
  destruct (get data "env" (PDict ∅)) as [genv|e]; [|constructor].
  destruct (_ ← getitem data "cases"; iter _) as [cases|e]; [|constructor].
  pose proof (run_cases_of_batch is_file genv cases (set_status self "Running")
                worlds Hdry) as H.
  destruct (run_cases _ is_file genv cases worlds) as [[self1 tr] r].
  cbn [fst snd] in *. now destruct r.
Qed.

(** * Further properties of the runner *)

(** ** The output of the child *)









(** ** The anatomy of the [try] statement *)

(** The body of the [try] statement either gets to the reading loop, after
    the spawning and perhaps the start of a timer, or is left by an
    exception before: at the spawning, with nothing emitted, or at the test
    of the timeout, with a child that runs on. *)
Lemma try_body_form self case cmd w :
  (exists t,
     (t = None /\ finite_positive (timeout case) = Ok false \/
      t = Some (timeout case) /\ finite_positive (timeout case) = Ok true) /\
     popen_env (env case) = Ok () /\ spawn w = SpawnOk /\
     try_body self case cmd w
     = (match t with Some _ => set_timer self t | None => self end,
        emit (Spawn cmd (env case) (_case_dir self)
                :: match t with Some v => [TimerStart v] | None => [] end)
             (read_loop Alive t (script w)))) \/
  (exists e, try_body self case cmd w = (self, ([], BodyRaised e None None (script w)))) \/
  (exists e,
     popen_env (env case) = Ok () /\ spawn w = SpawnOk /\
     finite_positive (timeout case) = Raise e /\
     try_body self case cmd w
     = (self, ([Spawn cmd (env case) (_case_dir self)],
               BodyRaised (Exc e) (Some Alive) None (script w)))).
Proof.
  unfold try_body.
  destruct (popen_env (env case)) as [[]|e]; [|right; left; eauto].
  destruct (spawn w) as [|e]; [|right; left; eauto].
  destruct (finite_positive (timeout case)) as [[|]|e].
  - left. exists (Some (timeout case)). auto.
  - left. exists None. auto.
  - right. right. eauto.
Qed.









(** ** The paths of [runcase] *)

(** [runcase] either gets to the [try] statement, for a case that is not
    skipped and resolves, in a run that is not dry; or it ends before,
    without a look at the world and with the runner as it was. *)
Lemma runcase_cases self is_file case w :
  (exists cmd,
     truthy (skip case) = false /\
     resolved self is_file case = Some cmd /\
     dry_run self = false /\
     runcase self is_file case w
     = (let '(self', tr, r) := try_statement self case cmd w in
        (self', BeforeCmdRun cmd :: tr, r))) \/
  ((runcase self is_file case w).1.1 = self /\
   (runcase self is_file case w).2 ≠ Hung /\
   Forall (fun e => before_try e = true) (runcase self is_file case w).1.2 /\
   forall w', runcase self is_file case w' = runcase self is_file case w).
Proof.
  unfold runcase, resolved.
  destruct (truthy (skip case)); [right; repeat split; [discriminate|repeat constructor]|].
  destruct (name case) as [| | | |n| |];
    try (right; repeat split; [discriminate|constructor]).
  destruct (args case) as [| | | |a| |];
    try (right; repeat split; [discriminate|constructor]).
  destruct (__resolve_cmd _ a) as [cmd|] eqn:Hcmd.
  - destruct (String.eqb _ n && is_file _); cbn [negb].
    + destruct (dry_run self).
      * right. repeat split; [discriminate|repeat constructor].
      * left. exists cmd. auto.
    + right. repeat split; [discriminate|repeat constructor].
  - right. repeat split; [discriminate|repeat constructor].
Qed.

(** ** Timers *)

Lemma count_zero_Forall p tr :
  count p tr = 0%nat <-> Forall (fun e => p e = false) tr.
Proof.
  induction tr as [|e tr IH]; [split; [constructor|reflexivity]|].
  rewrite count_cons, Forall_cons. destruct (p e); simpl.
  - split; [discriminate|intros [H _]; discriminate].
  - rewrite IH. tauto.
Qed.

Lemma of_loop_no_timer_call e : of_loop e = true -> is_timer_call e = false.
Proof. now destruct e. Qed.

(** [math.isfinite(t) and t > 0] on an int: positive, and small enough to
    be a float. *)
Lemma finite_positive_int z :
  finite_positive (PInt z) = Ok true <-> 0 < z < 2 ^ 1024 - 2 ^ 970.
Proof.
  unfold finite_positive.
  destruct (Z.leb_spec (2 ^ 1024 - 2 ^ 970) (Z.abs z)) as [H|H].
  - split; [discriminate|]. intros [H1 H2]. rewrite Z.abs_eq in H; lia.
  - destruct (Z.ltb_spec 0 z) as [H0|H0].
    + split; [|reflexivity]. intros _. rewrite Z.abs_eq in H; lia.
    + split; [discriminate|lia].
Qed.

Lemma try_statement_no_timer self case cmd w :
  _timer self = None ->
  finite_positive (timeout case) ≠ Ok true ->
  Forall (fun e => is_timer_call e = false /\ is_timed_out e = false)
         (try_statement self case cmd w).1.2.
Proof.
  intros Hself Hfp. unfold try_statement.
  destruct (try_body_form self case cmd w)
    as [(t & Ht & _ & _ & E) | [[e E] | (e & _ & _ & _ & E)]]; rewrite E.
  - destruct Ht as [[-> _] | [_ Ht]]; [|contradiction].
    pose proof (read_loop_timed_out (script w) Alive None) as Hto.
    pose proof (read_loop_of_loop (script w) Alive None) as Hol.
    destruct (read_loop Alive None (script w)) as [body e]. cbn [emit fst snd] in *.
    assert (Forall (fun e => is_timer_call e = false /\ is_timed_out e = false) body) as Hb.
    { assert (count is_timed_out body = 0%nat) as Hz by (simpl in Hto; lia).
      apply count_zero_Forall in Hz. rewrite Forall_forall in *.
      intros x Hx. split; [apply of_loop_no_timer_call|]; auto. }
    unfold cleanup. rewrite Hself.
    destruct e as [|[|err] proc timer rest|]; cbn [fst snd].
    + rewrite !Forall_app. repeat split; first [exact Hb|repeat constructor].
    + pose proof (handle_interrupt_timed_out proc timer rest) as Hht.
      pose proof (handle_interrupt_of_loop proc timer rest) as Hhl.
      destruct (_handle_interrupt proc timer rest) as [trh r]. cbn [fst snd] in *.
      assert (Forall (fun e => is_timer_call e = false /\ is_timed_out e = false) trh) as Hh.
      { assert (count is_timed_out trh = 0%nat) as Hz by (simpl in Hto; lia).
        apply count_zero_Forall in Hz. rewrite Forall_forall in *.
        intros x Hx. split; [apply of_loop_no_timer_call|]; auto. }
      rewrite !Forall_app. repeat split; first [exact Hb|exact Hh|repeat constructor].
    + rewrite !Forall_app. repeat split; first [exact Hb|repeat constructor].
    + rewrite !Forall_app. repeat split; first [exact Hb|repeat constructor].
  - unfold cleanup. rewrite Hself. destruct e as [|err]; cbn; repeat constructor.
  - unfold cleanup. rewrite Hself. cbn. repeat constructor.
Qed.

(** X3. With a timeout that is not a finite number above zero (zero, a
    negative number, infinity, not-a-number, or a value on which the test
    raises), a runner that holds no timer starts none and cancels none,
    and the run has no [TimedOut] event. *)
Theorem no_timeout_without_positive_timeout self is_file case w :
  _timer self = None ->
  finite_positive (timeout case) ≠ Ok true ->
  Forall (fun e => is_timer_call e = false /\ is_timed_out e = false)
         (runcase self is_file case w).1.2.
Proof.
  intros Hself Hfp.
  destruct (runcase_cases self is_file case w) as [(cmd & _ & _ & _ & E) | (_ & _ & H & _)].
  - rewrite E.
    pose proof (try_statement_no_timer self case cmd w Hself Hfp) as H.
    destruct (try_statement self case cmd w) as [[self' tr] r]. cbn [fst snd] in *.
    constructor; [now split|exact H].
  - eapply Forall_impl; [exact H|].
    intros [| | | |c i t| | | | | | |] Hx; try discriminate; try (now split).
    destruct c as [[]|], i, t; try discriminate. now split.
Qed.

Lemma no_timeout_without_positive_timeout_witness :
  Forall (fun e => is_timer_call e = false /\ is_timed_out e = false)
         (runcase runner test_case_dir
            {| name := PStr "sleep.sh"; args := PStr "5"; env := PDict ∅;
               timeout := PFloat infinity; skip := PBool false;
               skipreason := PStr "" |} ignores_sigterm).1.2.
Proof.
  apply no_timeout_without_positive_timeout; [reflexivity|].
  vm_compute. discriminate.
Defined.

(** ** The runner between two cases *)

Lemma set_timer_None_id self : _timer self = None -> set_timer self None = self.
Proof. destruct self. cbn. now intros ->. Qed.

Lemma try_statement_runner self case cmd w :
  (try_statement self case cmd w).2 ≠ Hung ->
  (try_statement self case cmd w).1.1 = set_timer self None.
Proof.
  unfold try_statement.
  destruct (try_body_form self case cmd w)
    as [(t & _ & _ & _ & E) | [[e E] | (e & _ & _ & _ & E)]]; rewrite E.
  - destruct (read_loop Alive t (script w)) as [body e]. cbn [emit fst snd].
    destruct e as [|[|err] proc timer rest|]; cbn [cleanup fst snd];
      try (destruct (_handle_interrupt proc timer rest)); cbn [fst snd];
      now destruct t.
  - destruct e; cbn [cleanup]; [destruct (_handle_interrupt _ _ _)|]; reflexivity.
  - reflexivity.
Qed.

(** A runner that holds no timer comes out of [runcase] as it went in. *)
Lemma runcase_runner self is_file case w :
  _timer self = None ->
  (runcase self is_file case w).2 ≠ Hung ->
  (runcase self is_file case w).1.1 = self.
Proof.
  intros Hself.
  destruct (runcase_cases self is_file case w) as [(cmd & _ & _ & _ & E) | (H & _)];
    [|auto].
  rewrite E. pose proof (try_statement_runner self case cmd w) as H.
  destruct (try_statement self case cmd w) as [[self' tr] r]. cbn [fst snd] in *.
  intros Hr. rewrite (H Hr). now apply set_timer_None_id.
Qed.

Lemma run_cases_runner is_file genv cases : forall self worlds,
  _timer self = None ->
  (run_cases self is_file genv cases worlds).2 ≠ Hung ->
  (run_cases self is_file genv cases worlds).1.1 = self.
Proof.
  induction cases as [|case cases IH]; intros self worlds Hself; [reflexivity|].
  cbn [run_cases]. destruct (make_caseinfo genv case) as [caseinfo|e]; [|reflexivity].
  pose proof (runcase_runner self is_file caseinfo (hd idle_world worlds) Hself) as H.
  destruct (runcase self is_file caseinfo (hd idle_world worlds)) as [[self1 tr] r].
  cbn [fst snd] in *.
  destruct r; try (intros Hr; now apply H).
  rewrite (H ltac:(discriminate)) in *.
  specialize (IH self (tl worlds) Hself).
  destruct (run_cases self is_file genv cases (tl worlds)) as [[self2 tr'] r'].
  exact IH.
Qed.

(** X4. No state of the runner crosses a case or a batch: when [run] ends,
    by returning or by raising, a runner that held no timer is what it was
    before, with the status [Idle].  A runner fresh from [__init__] is
    unchanged. *)
Theorem run_leaves_runner_as_it_was self is_file data worlds :
  _timer self = None ->
  (run self is_file data worlds).2 ≠ Hung ->
  (run self is_file data worlds).1.1 = set_status self "Idle".
Proof.
  intros Hself. unfold run, run_body.
  destruct (get data "env" (PDict ∅)) as [genv|e]; [|reflexivity].
  destruct (_ ← getitem data "cases"; iter _) as [cases|e]; [|reflexivity].
  pose proof (run_cases_runner is_file genv cases (set_status self "Running") worlds Hself)
    as H.
  destruct (run_cases _ is_file genv cases worlds) as [[self1 tr] r]. cbn [fst snd] in *.
  destruct r; intros Hr; try (now contradict Hr); now rewrite H.
Qed.

Lemma run_leaves_runner_as_it_was_witness :
  (run runner test_case_dir numeric_args_profile [exits_normally]).1.1 = runner.
Proof.
  apply (run_leaves_runner_as_it_was runner test_case_dir numeric_args_profile
           [exits_normally] eq_refl).
  vm_compute. discriminate.
Defined.

(** ** The child process *)

Lemma of_loop_no_spawn tr c e d :
  Forall (fun x => of_loop x = true) tr -> Spawn c e d ∉ tr.
Proof. intros H Hin. rewrite Forall_forall in H. now apply H in Hin. Qed.

Lemma of_loop_spawn_count tr :
  Forall (fun x => of_loop x = true) tr -> count is_spawn tr = 0%nat.
Proof.
  intros H. apply count_zero_Forall. eapply Forall_impl; [exact H|].
  now intros [].
Qed.

Lemma cleanup_of_spawn self cmd :
  count is_spawn (cleanup self cmd).2 = 0%nat /\
  forall c e d, Spawn c e d ∉ (cleanup self cmd).2.
Proof.
  unfold cleanup. destruct (_timer self); split; try reflexivity;
    intros c e d H; repeat (apply elem_of_cons in H as [H|H]; [discriminate|]);
    inversion H.
Qed.

Lemma try_statement_spawn self case cmd w :
  (count is_spawn (try_statement self case cmd w).1.2 <= 1)%nat /\
  forall c e d, Spawn c e d ∈ (try_statement self case cmd w).1.2 ->
    c = cmd /\ e = env case /\ d = _case_dir self /\
    popen_env (env case) = Ok () /\ spawn w = SpawnOk.
Proof.
  unfold try_statement.
  destruct (try_body_form self case cmd w)
    as [(t & _ & Hp & Hs & E) | [[e E] | (e & Hp & Hs & _ & E)]]; rewrite E.
  - pose proof (read_loop_of_loop (script w) Alive t) as Hol.
    destruct (read_loop Alive t (script w)) as [body e]. cbn [emit fst snd] in *.
    set (self1 := match t with Some _ => set_timer self t | None => self end).
    destruct (cleanup_of_spawn self1 cmd) as [Hc1 Hc2].
    destruct (cleanup self1 cmd) as [self2 fin]. cbn [snd] in *.
    assert (forall trh, Forall (fun x => of_loop x = true) trh ->
      (count is_spawn ((Spawn cmd (env case) (_case_dir self)
                          :: match t with Some v => [TimerStart v] | None => [] end)
                         ++ body ++ trh ++ fin) <= 1)%nat /\
      forall c e d,
        Spawn c e d ∈ (Spawn cmd (env case) (_case_dir self)
                         :: match t with Some v => [TimerStart v] | None => [] end)
                        ++ body ++ trh ++ fin ->
        c = cmd /\ e = env case /\ d = _case_dir self /\
        popen_env (env case) = Ok () /\ spawn w = SpawnOk) as Hall.
    { intros trh Hh. split.
      - rewrite !count_app, count_cons, (of_loop_spawn_count body Hol),
          (of_loop_spawn_count trh Hh), Hc1.
        destruct t; cbn; lia.
      - intros c e' d. rewrite !elem_of_app, elem_of_cons.
        intros [[H|H]|[H|[H|H]]].
        + injection H as -> -> ->. auto.
        + destruct t; [apply elem_of_cons in H as [H|H]; [discriminate|]|]; inversion H.
        + now apply of_loop_no_spawn in H.
        + now apply of_loop_no_spawn in H.
        + now apply Hc2 in H. }
    destruct e as [|[|err] proc timer rest|]; cbn [fst snd].
    + rewrite <- app_assoc. apply (Hall []). constructor.
    + pose proof (handle_interrupt_of_loop proc timer rest) as Hh.
      destruct (_handle_interrupt proc timer rest) as [trh r]. cbn [fst snd] in *.
      rewrite <- app_assoc. now apply Hall.
    + rewrite <- app_assoc. apply (Hall [UnknownException err]). repeat constructor.
    + destruct (Hall []) as [H1 H2]; [constructor|].
      rewrite !count_app in H1. split.
      * rewrite count_app. cbn [app] in H1. lia.
      * intros c e' d H. apply (H2 c e' d).
        rewrite elem_of_app in H. rewrite !elem_of_app. tauto.
  - destruct (cleanup_of_spawn self cmd) as [Hc1 Hc2].
    destruct (cleanup self cmd) as [self2 fin]. cbn [snd] in *.
    destruct e as [|err]; cbn [_handle_interrupt fst snd app].
    + split; [lia|]. intros c e d H. now apply Hc2 in H.
    + split; [rewrite count_cons; cbn; lia|].
      intros c e d [H|H]%elem_of_cons; [discriminate|]. now apply Hc2 in H.
  - destruct (cleanup_of_spawn self cmd) as [Hc1 Hc2].
    destruct (cleanup self cmd) as [self2 fin]. cbn [snd] in *. cbn [fst snd app].
    split; [rewrite !count_cons; cbn; lia|].
    intros c e' d [H|[H|H]%elem_of_cons]%elem_of_cons.
    + injection H as -> -> ->. auto.
    + discriminate.
    + now apply Hc2 in H.
Qed.

(** X5. [runcase] spawns at most one process, and only for a case that is
    not skipped and resolves, in a run that is not dry, when [Popen]
    accepts the environment: the command is the resolved one, the
    environment is the one of the descriptor as it is (nothing is merged
    into it), and the working directory is the case directory. *)
Theorem spawn_once_as_resolved self is_file case w :
  (count is_spawn (runcase self is_file case w).1.2 <= 1)%nat /\
  forall c e d, Spawn c e d ∈ (runcase self is_file case w).1.2 ->
    truthy (skip case) = false /\ resolved self is_file case = Some c /\
    dry_run self = false /\ e = env case /\ d = _case_dir self /\
    popen_env (env case) = Ok () /\ spawn w = SpawnOk.
Proof.
  destruct (runcase_cases self is_file case w)
    as [(cmd & Hskip & Hres & Hdry & E) | (_ & _ & H & _)].
  - rewrite E. pose proof (try_statement_spawn self case cmd w) as [H1 H2].
    destruct (try_statement self case cmd w) as [[self' tr] r]. cbn [fst snd] in *.
    split; [rewrite count_cons; exact H1|].
    intros c e d [Hin|Hin]%elem_of_cons; [discriminate|].
    destruct (H2 c e d Hin) as (-> & -> & -> & Hp & Hs). auto 10.
  - split.
    + assert (count is_spawn (runcase self is_file case w).1.2 = 0%nat) as ->; [|lia].
      apply count_zero_Forall. eapply Forall_impl; [exact H|]. now intros [].
    + intros c e d Hin. rewrite Forall_forall in H. now apply H in Hin.
Qed.

(** ** After the child's exit *)

Lemma handle_timeout_exited c t : _handle_timeout (Some (Exited c)) t = [].
Proof. reflexivity. Qed.

(** Around a child that has exited the loop is calm, and an exception
    finds the process handle of an exited child. *)
Lemma read_loop_exited todo : forall c timer,
  Forall (fun e => is_calm e = true) (read_loop (Exited c) timer todo).1 /\
  forall e proc timer' rest,
    (read_loop (Exited c) timer todo).2 = BodyRaised e proc timer' rest ->
    proc = Some (Exited c).
Proof.
  induction todo as [|s todo' IH]; intros c timer; [split; [constructor|discriminate]|].
  destruct s as [l| |code| | |err]; cbn [read_loop].
  - destruct (IH c timer) as [H1 H2]. split; [constructor; [reflexivity|exact H1]|exact H2].
  - cbn [emit fst snd]. split.
    + destruct todo' as [|[] ?]; repeat constructor.
    + destruct todo' as [|[] ?]; cbn; congruence.
  - apply IH.
  - destruct timer; cbn [emit fst snd _handle_timeout app]; apply IH.
  - cbn. split; [constructor|congruence].
  - cbn. split; [constructor|congruence].
Qed.

Lemma read_loop_exits_first pre : forall timer c post,
  Forall (fun s => is_output s = true) pre ->
  Forall (fun e => is_calm e = true)
         (read_loop Alive timer (pre ++ ChildExits c :: post)).1 /\
  forall e proc timer' rest,
    (read_loop Alive timer (pre ++ ChildExits c :: post)).2 = BodyRaised e proc timer' rest ->
    proc = Some (Exited c).
Proof.
  induction pre as [|s pre IH]; intros timer c post Hpre.
  - apply (read_loop_exited post c timer).
  - apply Forall_cons in Hpre as [Hs Hpre].
    destruct s as [l| |code| | |err]; try discriminate; cbn [app read_loop].
    + destruct (IH timer c post Hpre) as [H1 H2].
      split; [constructor; [reflexivity|exact H1]|exact H2].
    + now apply IH.
Qed.

Lemma cleanup_calm self cmd : Forall (fun e => is_calm e = true) (cleanup self cmd).2.
Proof. unfold cleanup. destruct (_timer self); repeat constructor. Qed.

(** X6. When the child exits before the timer has fired and before any
    Ctrl-C, nothing that comes later is turned against it or reported as
    a timeout or an interruption: the timer's callback and the interrupt
    handler find the child gone and do nothing.  The trace has no request
    to terminate, no wait, no [TimedOut] and no [Interrupted]. *)
Theorem nothing_is_requested_after_exit self is_file case sp pre c post :
  Forall (fun s => is_output s = true) pre ->
  Forall (fun e => is_calm e = true)
         (runcase self is_file case
            {| spawn := sp; script := pre ++ ChildExits c :: post |}).1.2.
Proof.
  intros Hpre. set (w := {| spawn := sp; script := pre ++ ChildExits c :: post |}).
  destruct (runcase_cases self is_file case w) as [(cmd & _ & _ & _ & E) | (_ & _ & H & _)].
  - rewrite E. unfold try_statement.
    destruct (try_body_form self case cmd w)
      as [(t & _ & _ & _ & Eb) | [[e Eb] | (e & _ & _ & _ & Eb)]]; rewrite Eb.
    + destruct (read_loop_exits_first pre t c post Hpre) as [Hb Hp].
      change (pre ++ ChildExits c :: post) with (script w) in Hb, Hp.
      destruct (read_loop Alive t (script w)) as [body e]. cbn [emit fst snd] in *.
      set (self1 := match t with Some _ => set_timer self t | None => self end).
      pose proof (cleanup_calm self1 cmd) as Hc.
      destruct (cleanup self1 cmd) as [self2 fin]. cbn [snd] in *.
      assert (Forall (fun e => is_calm e = true)
                (Spawn cmd (env case) (_case_dir self)
                   :: match t with Some v => [TimerStart v] | None => [] end)) as Hh
        by (destruct t; repeat constructor).
      destruct e as [|[|err] proc timer rest|]; cbn [fst snd].
      * constructor; [reflexivity|]. rewrite !Forall_app. auto.
      * rewrite (Hp _ _ _ _ eq_refl). cbn [_handle_interrupt fst snd].
        constructor; [reflexivity|]. rewrite !Forall_app.
        repeat split; first [assumption|constructor].
      * constructor; [reflexivity|]. rewrite !Forall_app.
        repeat split; first [assumption|now repeat constructor].
      * constructor; [reflexivity|]. rewrite !Forall_app. auto.
    + pose proof (cleanup_calm self cmd) as Hc.
      destruct (cleanup self cmd) as [self2 fin]. cbn [snd] in *.
      destruct e as [|err]; cbn [_handle_interrupt fst snd app];
        repeat (constructor; [reflexivity|]); exact Hc.
    + pose proof (cleanup_calm self cmd) as Hc.
      destruct (cleanup self cmd) as [self2 fin]. cbn [snd] in *. cbn [fst snd app].
      repeat (constructor; [reflexivity|]). exact Hc.
  - eapply Forall_impl; [exact H|].
    intros [| | | |c0 i t| | | | | | |] Hx; try discriminate; try reflexivity.
    destruct c0 as [[]|], i, t; try discriminate. reflexivity.
Qed.

Lemma nothing_is_requested_after_exit_witness :
  Forall (fun e => is_calm e = true)
         (runcase runner test_case_dir sleep_case
            {| spawn := SpawnOk;
               script := [Line "done"] ++ ChildExits 0 :: [TimerFires; Interrupt] |}).1.2.
Proof.
  apply (nothing_is_requested_after_exit runner test_case_dir sleep_case SpawnOk
           [Line "done"] 0 [TimerFires; Interrupt]).
  repeat constructor.
Defined.

(** ** Runs that do not end *)

Lemma read_loop_passive todo : forall timer,
  Forall (fun s => is_passive s = true) todo ->
  (read_loop Alive timer todo).2 = BodyBlocked /\
  count is_own_outcome (read_loop Alive timer todo).1 = 0%nat.
Proof.
  induction todo as [|s rest IH]; intros timer Hp; [split; reflexivity|].
  apply Forall_cons in Hp as [Hs Hp].
  destruct s as [l| |code| | |err]; try discriminate; cbn [read_loop].
  - destruct (IH timer Hp) as [H1 H2]. cbn [emit fst snd].
    split; [exact H1|]. rewrite count_app, H2. reflexivity.
  - now apply IH.
  - destruct timer as [t|]; [|now apply IH].
    destruct (IH None Hp) as [H1 H2]. cbn [emit fst snd].
    split; [exact H1|]. rewrite count_app, H2. reflexivity.
Qed.

(** X7. The timeout alone does not end a run.  When the child is spawned
    and then neither exits nor is interrupted, and the read does not fail,
    [runcase] never returns, whether the timer fires or not: the callback
    only asks the child to terminate.  The main thread reports no outcome
    and the post-run hook is not called. *)
Theorem timeout_alone_never_ends_a_run self is_file case cmd w :
  truthy (skip case) = false ->
  resolved self is_file case = Some cmd ->
  dry_run self = false ->
  popen_env (env case) = Ok () ->
  spawn w = SpawnOk ->
  (forall e, finite_positive (timeout case) ≠ Raise e) ->
  Forall (fun s => is_passive s = true) (script w) ->
  (runcase self is_file case w).2 = Hung /\
  count is_own_outcome (runcase self is_file case w).1.2 = 0%nat /\
  count is_after_cmd_run (runcase self is_file case w).1.2 = 0%nat.
Proof.
  intros Hskip Hres Hdry Hp Hs Hfp Hscript.
  rewrite (runcase_resolved _ _ _ cmd) by assumption. rewrite Hdry.
  unfold try_statement.
  destruct (try_body_form self case cmd w)
    as [(t & _ & _ & _ & E) | [[e E] | (e & _ & _ & He & E)]].
  - rewrite E.
    destruct (read_loop_passive (script w) t Hscript) as [Hb Ho].
    pose proof (read_loop_of_loop (script w) Alive t) as Hol.
    destruct (read_loop Alive t (script w)) as [body e]. cbn [emit fst snd] in *.
    subst e. cbn [fst snd]. split; [reflexivity|]. split.
    + rewrite count_cons, count_app, Ho. now destruct t.
    + rewrite count_cons, count_app. cbn.
      assert (count is_after_cmd_run body = 0%nat) as ->.
      { apply count_zero_Forall. eapply Forall_impl; [exact Hol|]. now intros []. }
      now destruct t.
  - exfalso. unfold try_body in E. rewrite Hp, Hs in E.
    destruct (finite_positive (timeout case)) as [[|]|]; [| |discriminate];
      unfold emit in E; cbn in E; discriminate.
  - now apply Hfp in He.
Qed.

Lemma timeout_alone_never_ends_a_run_witness :
  (runcase runner test_case_dir sleep_case
     {| spawn := SpawnOk; script := [Line "zzz"; TimerFires; Eof; Line "still here"] |}).2
  = Hung /\
  count is_own_outcome
    (runcase runner test_case_dir sleep_case
       {| spawn := SpawnOk; script := [Line "zzz"; TimerFires; Eof; Line "still here"] |}).1.2
  = 0%nat /\
  count is_after_cmd_run
    (runcase runner test_case_dir sleep_case
       {| spawn := SpawnOk; script := [Line "zzz"; TimerFires; Eof; Line "still here"] |}).1.2
  = 0%nat.
Proof.
  apply (timeout_alone_never_ends_a_run runner test_case_dir sleep_case sleep_cmd);
    try reflexivity.
  - intros e. vm_compute. discriminate.
  - repeat constructor.
Defined.

Lemma read_loop_exited_eof b : forall c timer d,
  (read_loop (Exited c) timer (b ++ Eof :: d)).2 ≠ BodyBlocked.
Proof.
  induction b as [|s b IH]; intros c timer d.
  - cbn. destruct d as [|[] ?]; discriminate.
  - destruct s as [l| |code| | |err]; cbn [app read_loop]; try apply IH; try discriminate.
    + cbn. destruct (b ++ Eof :: d) as [|[] ?]; discriminate.
    + destruct timer; apply IH.
Qed.

Lemma read_loop_exit_then_eof a : forall child timer c b d,
  (read_loop child timer (a ++ ChildExits c :: b ++ Eof :: d)).2 ≠ BodyBlocked.
Proof.
  induction a as [|s a IH]; intros child timer c b d.
  - cbn [app read_loop]. destruct child; apply read_loop_exited_eof.
  - destruct s as [l| |code| | |err]; cbn [app read_loop]; try apply IH; try discriminate.
    + destruct child as [|c0]; [apply IH|].
      cbn. destruct (a ++ _) as [|[] ?]; discriminate.
    + destruct timer; apply IH.
Qed.

(** X8. [runcase] ends, by returning or by raising, whenever the child
    exits and the read then comes to the end of its output: no script in
    which an exit of the child is followed by an end of file makes the run
    hang, whatever else happens before, between and after. *)
Theorem run_ends_when_child_exits_and_output_ends self is_file case sp a c b d :
  (runcase self is_file case
     {| spawn := sp; script := a ++ ChildExits c :: b ++ Eof :: d |}).2 ≠ Hung.
Proof.
  set (w := {| spawn := sp; script := a ++ ChildExits c :: b ++ Eof :: d |}).
  destruct (runcase_cases self is_file case w) as [(cmd & _ & _ & _ & E) | (_ & H & _)];
    [|exact H].
  rewrite E. unfold try_statement.
  destruct (try_body_form self case cmd w)
    as [(t & _ & _ & _ & Eb) | [[e Eb] | (e & _ & _ & _ & Eb)]]; rewrite Eb.
  - pose proof (read_loop_exit_then_eof a Alive t c b d) as Hb.
    change (a ++ ChildExits c :: b ++ Eof :: d) with (script w) in Hb.
    destruct (read_loop Alive t (script w)) as [body e]. cbn [emit fst snd] in *.
    destruct e as [|[|err] proc timer rest|]; cbn [cleanup fst snd];
      [discriminate| |discriminate|now contradict Hb].
    pose proof (handle_interrupt_ending proc timer rest) as Hh.
    destruct (_handle_interrupt proc timer rest) as [trh r]. cbn [fst snd] in *.
    destruct Hh as [-> | ->]; discriminate.
  - destruct e as [|err]; cbn; discriminate.
  - cbn. discriminate.
Qed.

(** ** The exit code *)

Lemma handle_timeout_no_code proc t c i t' : Exit (Some c) i t' ∉ _handle_timeout proc t.
Proof.
  destruct proc as [[|c0]|]; cbn; intros H;
    repeat (apply elem_of_cons in H as [H|H]; [discriminate|]); inversion H.
Qed.

(** The loop reports the code the child exited with, and leaves the loop
    on an exception with the child alive only if no exit was consumed. *)
Lemma read_loop_exit_code todo : forall child timer,
  (forall c i t, Exit (Some c) i t ∈ (read_loop child timer todo).1 ->
     match child with
     | Exited c0 => c = c0
     | Alive => first_exit todo = Some c
     end) /\
  (forall e timer' rest,
     (read_loop child timer todo).2 = BodyRaised e (Some Alive) timer' rest ->
     child = Alive /\ first_exit todo = first_exit rest).
Proof.
  induction todo as [|s todo' IH]; intros child timer.
  { split; [intros c i t H; inversion H|discriminate]. }
  destruct s as [l| |code| | |err]; cbn [read_loop first_exit].
  - destruct (IH child timer) as [H1 H2]. cbn [emit fst snd]. split; [|exact H2].
    intros c i t [H|H]%elem_of_cons; [discriminate|]. exact (H1 c i t H).
  - destruct child as [|c0]; [apply IH|]. cbn [emit fst snd]. split.
    + intros c i t H. destruct todo' as [|[] ?]; cbn in H;
        apply elem_of_cons in H as [H|H]; try (now injection H); inversion H.
    + intros e timer' rest H. destruct todo' as [|[] ?]; cbn in H; discriminate.
  - destruct child as [|c0].
    + destruct (IH (Exited code) timer) as [H1 H2]. split.
      * intros c i t H. now rewrite (H1 c i t H).
      * intros e timer' rest H. now apply H2 in H as [? _].
    + destruct (IH (Exited c0) timer) as [H1 H2]. split; [exact H1|].
      intros e timer' rest H. now apply H2 in H as [? _].
  - destruct timer as [t0|]; [|apply IH].
    destruct (IH child None) as [H1 H2]. cbn [emit fst snd]. split; [|exact H2].
    intros c i t [H|H]%elem_of_app; [now apply handle_timeout_no_code in H|].
    exact (H1 c i t H).
  - cbn. split; [intros c i t H; inversion H|].
    intros e timer' rest [= _ -> _ ->]. auto.
  - cbn. split; [intros c i t H; inversion H|].
    intros e timer' rest [= _ -> _ ->]. auto.
Qed.

Lemma wait_exit_code todo : forall timer,
  (forall c i t, Exit (Some c) i t ∉ (wait timer todo).1) /\
  (forall code, (wait timer todo).2 = WaitCode code -> first_exit todo = Some code).
Proof.
  induction todo as [|s rest IH]; intros timer.
  { split; [intros c i t H; inversion H|discriminate]. }
  destruct s as [l| |code| | |err]; cbn [wait first_exit]; try apply IH.
  - split; [intros c i t H; inversion H|]. cbn. congruence.
  - destruct timer as [t0|]; [|apply IH].
    destruct (IH None) as [H1 H2]. cbn [emit fst snd]. split; [|exact H2].
    intros c i t [H|H]%elem_of_app; [now apply handle_timeout_no_code in H|].
    now apply H1 in H.
  - split; [intros c i t H; inversion H|discriminate].
Qed.

Lemma handle_interrupt_exit_code timer rest c i t :
  Exit (Some c) i t ∈ (_handle_interrupt (Some Alive) timer rest).1 ->
  first_exit rest = Some c.
Proof.
  unfold _handle_interrupt, emit.
  destruct (wait_exit_code rest timer) as [H1 H2].
  destruct (wait timer rest) as [tr [code| |]]; cbn [fst snd] in *;
    intros [H|H]%elem_of_app;
    try (repeat (apply elem_of_cons in H as [H|H]; [discriminate|]); now inversion H);
    try (now apply H1 in H).
  - apply elem_of_app in H as [H|H]; [now apply H1 in H|].
    apply list_elem_of_singleton in H. injection H as -> _ _. now apply H2.
  - apply elem_of_app in H as [H|H]; [now apply H1 in H|].
    apply list_elem_of_singleton in H. discriminate.
Qed.

(** A code in a report of the [try] statement is the return code of the
    child. *)
Lemma try_statement_exit_code self case cmd w c i t :
  Exit (Some c) i t ∈ (try_statement self case cmd w).1.2 ->
  first_exit (script w) = Some c.
Proof.
  unfold try_statement.
  destruct (try_body_form self case cmd w)
    as [(t0 & _ & _ & _ & E) | [[e E] | (e & _ & _ & _ & E)]]; rewrite E.
  - destruct (read_loop_exit_code (script w) Alive t0) as [H1 H2].
    destruct (read_loop Alive t0 (script w)) as [body e]. cbn [emit fst snd] in *.
    set (self1 := match t0 with Some _ => set_timer self t0 | None => self end).
    assert (Hc : Exit (Some c) i t ∉ (cleanup self1 cmd).2).
    { unfold cleanup. destruct (_timer self1); cbn; intros H;
        repeat (apply elem_of_cons in H as [H|H]; [discriminate|]); inversion H. }
    destruct (cleanup self1 cmd) as [self2 fin]. cbn [snd] in *.
    assert (Hh : Exit (Some c) i t ∉
                 Spawn cmd (env case) (_case_dir self)
                   :: match t0 with Some v => [TimerStart v] | None => [] end).
    { destruct t0; intros H;
        repeat (apply elem_of_cons in H as [H|H]; [discriminate|]); inversion H. }
    destruct e as [|[|err] proc timer rest|]; cbn [fst snd].
    + intros H.
      rewrite !elem_of_app in H. destruct H as [[H|H]|H]; try contradiction.
      exact (H1 c i t H).
    + destruct proc as [[|c0]|]; cbn [fst snd].
      * destruct (H2 _ _ _ eq_refl) as [_ Hrest].
        pose proof (handle_interrupt_exit_code timer rest c i t) as Hi.
        destruct (_handle_interrupt (Some Alive) timer rest) as [trh r]. cbn [fst snd] in *.
        intros H.
        rewrite !elem_of_app in H. destruct H as [[H|H]|[H|H]]; try contradiction.
        -- exact (H1 c i t H).
        -- rewrite Hrest. now apply Hi.
      * cbn [_handle_interrupt fst snd].
        intros H.
        rewrite !elem_of_app in H. destruct H as [[H|H]|[H|H]]; try contradiction.
        -- exact (H1 c i t H).
        -- inversion H.
      * cbn [_handle_interrupt fst snd].
        intros H.
        rewrite !elem_of_app in H. destruct H as [[H|H]|[H|H]]; try contradiction.
        -- exact (H1 c i t H).
        -- inversion H.
    + intros H.
      rewrite !elem_of_app in H. destruct H as [[H|H]|[H|H]]; try contradiction.
      * exact (H1 c i t H).
      * apply list_elem_of_singleton in H. discriminate.
    + intros H.
      rewrite !elem_of_app in H. destruct H as [H|H]; try contradiction.
      exact (H1 c i t H).
  - assert (Hc : Exit (Some c) i t ∉ (cleanup self cmd).2).
    { unfold cleanup. destruct (_timer self); cbn; intros H;
        repeat (apply elem_of_cons in H as [H|H]; [discriminate|]); inversion H. }
    destruct (cleanup self cmd) as [self2 fin]. cbn [snd] in *.
    destruct e as [|err]; cbn [_handle_interrupt fst snd app];
      intros H; repeat (apply elem_of_cons in H as [H|H]; [discriminate|]);
      contradiction.
  - assert (Hc : Exit (Some c) i t ∉ (cleanup self cmd).2).
    { unfold cleanup. destruct (_timer self); cbn; intros H;
        repeat (apply elem_of_cons in H as [H|H]; [discriminate|]); inversion H. }
    destruct (cleanup self cmd) as [self2 fin]. cbn [snd] in *. cbn [fst snd app].
    intros H; repeat (apply elem_of_cons in H as [H|H]; [discriminate|]);
      contradiction.
Qed.


(** X9. An exit code in a report of a real run is the return code of the
    child: whenever [_handle_exit] is called with a code, as [Exited] or as
    [Interrupted], the child has exited, and with that code. *)
Theorem reported_code_is_the_childs self is_file case w c i t :
  dry_run self = false ->
  Exit (Some c) i t ∈ (runcase self is_file case w).1.2 ->
  first_exit (script w) = Some c.
Proof.
  intros Hdry. unfold runcase.
  destruct (truthy (skip case));
    [intros [H|H]%elem_of_cons; [discriminate|inversion H]|].
  destruct (name case); try (intros H; now inversion H).
  destruct (args case); try (intros H; now inversion H).
  destruct (__resolve_cmd _ _) as [cmd|];
    [|intros [H|H]%elem_of_cons; [discriminate|inversion H]].
  destruct (negb _); [intros [H|H]%elem_of_cons; [discriminate|inversion H]|].
  rewrite Hdry.
  pose proof (try_statement_exit_code self case cmd w c i t) as Ht.
  destruct (try_statement self case cmd w) as [[self' tr] r]. cbn [fst snd] in *.
  intros [H|H]%elem_of_cons; [discriminate|auto].
Qed.

Lemma reported_code_is_the_childs_witness :
  first_exit (script interrupted_alive) = Some (-15).
Proof.
  apply (reported_code_is_the_childs runner test_case_dir sleep_case interrupted_alive
           (-15) true None eq_refl).
  vm_compute. repeat (first [apply list_elem_of_here|apply list_elem_of_further]).
Defined.

(** ** Batches *)

Lemma try_statement_of_try self case cmd w :
  Forall (fun e => of_try e = true) (try_statement self case cmd w).1.2.
Proof.
  assert (Hl : forall tr, Forall (fun e => of_loop e = true) tr ->
                          Forall (fun e => of_try e = true) tr).
  { intros tr H. eapply Forall_impl; [exact H|]. now intros []. }
  assert (Hc : forall s, Forall (fun e => of_try e = true) (cleanup s cmd).2).
  { intros s. unfold cleanup. destruct (_timer s); repeat constructor. }
  unfold try_statement.
  destruct (try_body_form self case cmd w)
    as [(t & _ & _ & _ & E) | [[e E] | (e & _ & _ & _ & E)]]; rewrite E.
  - pose proof (Hl _ (read_loop_of_loop (script w) Alive t)) as Hb.
    destruct (read_loop Alive t (script w)) as [body e]. cbn [emit fst snd] in *.
    set (self1 := match t with Some _ => set_timer self t | None => self end).
    specialize (Hc self1). destruct (cleanup self1 cmd) as [self2 fin]. cbn [snd] in *.
    assert (Forall (fun e => of_try e = true)
              (Spawn cmd (env case) (_case_dir self)
                 :: match t with Some v => [TimerStart v] | None => [] end)) as Hh
      by (destruct t; repeat constructor).
    destruct e as [|[|err] proc timer rest|]; cbn [fst snd].
    + rewrite !Forall_app. auto.
    + pose proof (Hl _ (handle_interrupt_of_loop proc timer rest)) as Hi.
      destruct (_handle_interrupt proc timer rest) as [trh r]. cbn [fst snd] in *.
      rewrite !Forall_app. auto.
    + rewrite !Forall_app. repeat split; first [assumption|now repeat constructor].
    + rewrite !Forall_app. auto.
  - specialize (Hc self). destruct (cleanup self cmd) as [self2 fin]. cbn [snd] in *.
    destruct e as [|err]; cbn [_handle_interrupt fst snd app];
      repeat (constructor; [reflexivity|]); exact Hc.
  - specialize (Hc self). destruct (cleanup self cmd) as [self2 fin]. cbn [snd] in *.
    cbn [fst snd app]. repeat (constructor; [reflexivity|]). exact Hc.
Qed.

(** A dry run of a case ends before the [try] statement. *)
Lemma runcase_dry self is_file case w :
  dry_run self = true ->
  (runcase self is_file case w).1.1 = self /\
  (runcase self is_file case w).2 ≠ Hung /\
  Forall (fun e => before_try e = true) (runcase self is_file case w).1.2 /\
  forall w', runcase self is_file case w' = runcase self is_file case w.
Proof.
  intros Hdry.
  destruct (runcase_cases self is_file case w) as [(cmd & _ & _ & H & _) | H];
    [congruence|exact H].
Qed.

Lemma run_cases_dry is_file genv cases : forall self worlds,
  dry_run self = true ->
  (run_cases self is_file genv cases worlds).2 ≠ Hung /\
  Forall (fun e => before_try e = true) (run_cases self is_file genv cases worlds).1.2 /\
  forall worlds', run_cases self is_file genv cases worlds'
                  = run_cases self is_file genv cases worlds.
Proof.
  induction cases as [|case cases IH]; intros self worlds Hdry.
  { repeat split; [discriminate|constructor]. }
  cbn [run_cases]. destruct (make_caseinfo genv case) as [caseinfo|e].
  2: { repeat split; [discriminate|constructor]. }
  destruct (runcase_dry self is_file caseinfo (hd idle_world worlds) Hdry)
    as (Hs & Hr & Hf & Hw).
  assert (forall worlds', runcase self is_file caseinfo (hd idle_world worlds')
                          = runcase self is_file caseinfo (hd idle_world worlds)) as Hw'
    by (intros; apply Hw).
  destruct (runcase self is_file caseinfo (hd idle_world worlds)) as [[self1 tr] r].
  cbn [fst snd] in *. subst self1.
  destruct (IH self (tl worlds) Hdry) as (IHr & IHf & IHw).
  destruct r.
  - destruct (run_cases self is_file genv cases (tl worlds)) as [[self2 tr'] r'] eqn:E.
    cbn [fst snd] in *. repeat split; [exact IHr|apply Forall_app; auto|].
    intros worlds'. rewrite Hw', (IHw (tl worlds')). reflexivity.
  - repeat split; [discriminate|exact Hf|]. intros worlds'. now rewrite Hw'.
  - now contradict Hr.
Qed.

(** X10. A dry run of a batch creates nothing: for every profile, [run]
    on a runner in dry-run mode ends (by returning or by raising), its
    trace holds nothing but skips, unknown cases, pre-run hooks and
    [Exited(0)] (no process, no timer, no output, no post-run hook), and it
    is the same whatever the world would have done. *)
Theorem dry_run_creates_nothing self is_file data worlds :
  dry_run self = true ->
  (run self is_file data worlds).2 ≠ Hung /\
  Forall (fun e => before_try e = true) (run self is_file data worlds).1.2 /\
  forall worlds', run self is_file data worlds' = run self is_file data worlds.
Proof.
  intros Hdry. unfold run, run_body.
  destruct (get data "env" (PDict ∅)) as [genv|e];
    [|repeat split; [discriminate|constructor]].
  destruct (_ ← getitem data "cases"; iter _) as [cases|e];
    [|repeat split; [discriminate|constructor]].
  destruct (run_cases_dry is_file genv cases (set_status self "Running") worlds Hdry)
    as (Hr & Hf & Hw).
  destruct (run_cases _ is_file genv cases worlds) as [[self1 tr] r] eqn:E.
  cbn [fst snd] in *.
  repeat split.
  - destruct r; [discriminate..|now contradict Hr].
  - now destruct r.
  - intros worlds'. now rewrite Hw.
Qed.

Lemma dry_run_creates_nothing_witness :
  (run dry_runner test_case_dir numeric_args_profile [ignores_sigterm]).2 ≠ Hung /\
  Forall (fun e => before_try e = true)
         (run dry_runner test_case_dir numeric_args_profile [ignores_sigterm]).1.2 /\
  forall worlds', run dry_runner test_case_dir numeric_args_profile worlds'
                  = run dry_runner test_case_dir numeric_args_profile [ignores_sigterm].
Proof.
  exact (dry_run_creates_nothing dry_runner test_case_dir numeric_args_profile
           [ignores_sigterm] eq_refl).
Defined.

(** X11. A batch is run case by case: the run of two lists of entries,
    one after the other, is the run of the first, and then, if that one
    returned, the run of the second from the runner and the worlds left,
    with the traces joined.  If the first does not return, nothing of the
    second is run. *)
Theorem run_cases_app self is_file genv cases1 cases2 : forall worlds,
  run_cases self is_file genv (cases1 ++ cases2) worlds
  = let '(self1, tr1, r1) := run_cases self is_file genv cases1 worlds in
    match r1 with
    | Returned =>
        let '(self2, tr2, r2) :=
          run_cases self1 is_file genv cases2 (drop (length cases1) worlds) in
        (self2, tr1 ++ tr2, r2)
    | _ => (self1, tr1, r1)
    end.
Proof.
  revert self. induction cases1 as [|case cases1 IH]; intros self worlds.
  - cbn. rewrite drop_0. now destruct (run_cases self is_file genv cases2 worlds) as [[? ?] ?].
  - cbn [app run_cases length]. destruct (make_caseinfo genv case) as [caseinfo|e];
      [|reflexivity].
    destruct (runcase self is_file caseinfo (hd idle_world worlds)) as [[self1 tr] r].
    destruct r; try reflexivity.
    rewrite IH. replace (drop (S (length cases1)) worlds)
      with (drop (length cases1) (tl worlds))
      by (destruct worlds; cbn; rewrite ?drop_nil; reflexivity).
    destruct (run_cases self1 is_file genv cases1 (tl worlds)) as [[self2 tr1] r1].
    destruct r1; try reflexivity.
    destruct (run_cases self2 is_file genv cases2 _) as [[self3 tr2] r2].
    now rewrite app_assoc.
Qed.

(** X12. An entry from which no descriptor can be built ends the batch on
    the spot: the cases before it have been run and keep their traces,
    the exception leaves the loop, and no entry after it is looked at. *)
Theorem malformed_entry_ends_batch self is_file genv cases1 bad cases2 worlds e :
  make_caseinfo genv bad = Raise e ->
  (run_cases self is_file genv cases1 worlds).2 = Returned ->
  run_cases self is_file genv (cases1 ++ bad :: cases2) worlds
  = ((run_cases self is_file genv cases1 worlds).1.1,
     (run_cases self is_file genv cases1 worlds).1.2,
     Raised (Exc e)).
Proof.
  intros Hbad. revert self worlds.
  induction cases1 as [|case cases1 IH]; intros self worlds Hr.
  - cbn. now rewrite Hbad.
  - cbn [app run_cases] in *.
    destruct (make_caseinfo genv case) as [caseinfo|e0]; [|discriminate].
    destruct (runcase self is_file caseinfo (hd idle_world worlds)) as [[self1 tr] r].
    destruct r; try discriminate.
    specialize (IH self1 (tl worlds)).
    destruct (run_cases self1 is_file genv cases1 (tl worlds)) as [[self2 tr1] r1].
    cbn [fst snd] in *. rewrite IH by exact Hr. reflexivity.
Qed.

Lemma malformed_entry_ends_batch_witness :
  run_cases runner test_case_dir (PDict ∅)
    ([obj [("name", PStr "sleep.sh"); ("skip", PNone)]]
       ++ obj [("args", PStr "-v")] :: [obj [("name", PStr "sleep.sh")]]) []
  = (runner, [Skip (PStr "sleep.sh") PNone], Raised (Exc (KeyError "name"))).
Proof.
  apply (malformed_entry_ends_batch runner test_case_dir (PDict ∅)
           [obj [("name", PStr "sleep.sh"); ("skip", PNone)]]
           (obj [("args", PStr "-v")])
           [obj [("name", PStr "sleep.sh")]] [] (KeyError "name")).
  - vm_compute. reflexivity.
  - vm_compute. reflexivity.
Defined.

(** X13. A profile that has no list of cases: when it is no object, the
    first statement of [run] raises [AttributeError]; when it has no key
    ["cases"], the loop raises [KeyError]; when the value is not iterable,
    [TypeError].  Nothing is emitted and the status is [Idle] afterwards.
    An empty list of cases returns, with nothing emitted, even if the
    global environment is no object. *)
Theorem malformed_profile self is_file data worlds :
  ((forall d, data ≠ PDict d) ->
   run self is_file data worlds
   = (set_status self "Idle", [], Raised (Exc AttributeError))) /\
  (forall d, data = PDict d -> d !! "cases" = None ->
   run self is_file data worlds
   = (set_status self "Idle", [], Raised (Exc (KeyError "cases")))) /\
  (forall d v, data = PDict d -> d !! "cases" = Some v -> iter v = Raise TypeError ->
   run self is_file data worlds
   = (set_status self "Idle", [], Raised (Exc TypeError))) /\
  (forall d, data = PDict d -> d !! "cases" = Some (PList []) ->
   run self is_file data worlds = (set_status self "Idle", [], Returned)).
Proof.
  unfold run, run_body. split; [|split; [|split]].
  - intros H. destruct data as [| | | | | |d]; try reflexivity.
    exfalso. exact (H d eq_refl).
  - intros d -> Hc. cbn [get getitem mbind Res_bind Py.bind]. now rewrite Hc.
  - intros d v -> Hc Hi. cbn [get getitem mbind Res_bind Py.bind]. rewrite Hc.
    cbn [mbind Res_bind Py.bind]. now rewrite Hi.
  - intros d -> Hc. cbn [get getitem mbind Res_bind Py.bind]. now rewrite Hc.
Qed.

(** ** Skipping *)

Lemma runcase_not_skipped self is_file case w :
  truthy (skip case) = false ->
  count is_skip (runcase self is_file case w).1.2 = 0%nat.
Proof.
  intros Hskip. unfold runcase. rewrite Hskip.
  destruct (name case); try reflexivity.
  destruct (args case); try reflexivity.
  destruct (__resolve_cmd _ _) as [cmd|]; [|reflexivity].
  destruct (negb _); [reflexivity|].
  destruct (dry_run self); [reflexivity|].
  pose proof (try_statement_of_try self case cmd w) as H.
  destruct (try_statement self case cmd w) as [[self' tr] r]. cbn [fst snd] in *.
  rewrite count_cons. cbn. apply count_zero_Forall.
  eapply Forall_impl; [exact H|]. now intros [].
Qed.

(** X14. What skips an entry of a batch: every value of ["skip"] other
    than [False], also [None], [0] and the empty string, which are false
    in Python.  Such an entry gets the one event [Skipped], with its name
    and with the value as the reason, whatever the name is and whatever
    the file system holds.  An entry without the key, or with [False], is
    not skipped. *)
Theorem what_skips_an_entry self is_file genv (d : gmap string PyVal) caseinfo w :
  make_caseinfo genv (PDict d) = Ok caseinfo ->
  (forall v, d !! "skip" = Some v -> v ≠ PBool false ->
     runcase self is_file caseinfo w = (self, [Skip (name caseinfo) v], Returned)) /\
  (d !! "skip" = None \/ d !! "skip" = Some (PBool false) ->
     count is_skip (runcase self is_file caseinfo w).1.2 = 0%nat).
Proof.
  intros Hmk. apply make_caseinfo_fields in Hmk as (_ & _ & _ & _ & Hs & Hr). split.
  - intros v Hv Hne. rewrite Hv in Hs, Hr. cbn [default from_option id] in *.
    unfold runcase. rewrite Hs, Hr.
    assert (is_not_False v = true) as -> by (destruct v as [|[]| | | | |]; auto; contradiction).
    reflexivity.
  - intros H. apply runcase_not_skipped. rewrite Hs.
    destruct H as [-> | ->]; reflexivity.
Qed.

Lemma what_skips_an_entry_witness :
  runcase runner test_case_dir
    {| name := PStr "sleep.sh"; args := PStr ""; env := PInt 0; timeout := PDict ∅;
       skip := PBool true; skipreason := PNone |} exits_normally
  = (runner, [Skip (PStr "sleep.sh") PNone], Returned).
Proof.
  refine (proj1 (what_skips_an_entry runner test_case_dir (PDict ∅)
                   (list_to_map [("name", PStr "sleep.sh"); ("skip", PNone)])
                   {| name := PStr "sleep.sh"; args := PStr ""; env := PInt 0;
                      timeout := PDict ∅; skip := PBool true; skipreason := PNone |}
                   exits_normally _) PNone _ _).
  - vm_compute. reflexivity.
  - vm_compute. reflexivity.
  - discriminate.
Defined.

(** ** The merged environment *)

(** X15. The environment that [run] builds for an entry, [{**env,
    **case.get('env', {})}], has the keys of both: a key of the entry's
    environment has the entry's value, any other key the global one.  (It
    is the fourth argument of [TestCaseInfo(...)], which is the field
    [timeout].) *)
Theorem merged_environment (g d : gmap string PyVal) caseinfo :
  make_caseinfo (PDict g) (PDict d) = Ok caseinfo ->
  exists e m,
    default (PDict ∅) (d !! "env") = PDict e /\
    timeout caseinfo = PDict m /\
    forall k, m !! k = match e !! k with
                       | Some v => Some v
                       | None => g !! k
                       end.
Proof.
  intros Hmk. apply make_caseinfo_fields in Hmk as (_ & _ & _ & Hm & _).
  destruct (default (PDict ∅) (d !! "env")) as [| | | | | |e]; try discriminate.
  injection Hm as <-. exists e, (e ∪ g). repeat split.
  intros k. rewrite lookup_union. now destruct (e !! k), (g !! k).
Qed.

Lemma merged_environment_witness :
  exists e m,
    default (PDict ∅) ((list_to_map [("name", PStr "sleep.sh"); ("timeout", PInt 5);
                                     ("env", obj [("A", PStr "1")])]
                        : gmap string PyVal) !! "env") = PDict e /\
    PDict (list_to_map [("A", PStr "1"); ("PATH", PStr "/bin")]) = PDict m /\
    forall k, m !! k = match e !! k with
                       | Some v => Some v
                       | None => (list_to_map [("PATH", PStr "/bin")]
                                  : gmap string PyVal) !! k
                       end.
Proof.
  refine (merged_environment (list_to_map [("PATH", PStr "/bin")])
            (list_to_map [("name", PStr "sleep.sh"); ("timeout", PInt 5);
                          ("env", obj [("A", PStr "1")])])
            {| name := PStr "sleep.sh"; args := PStr ""; env := PInt 5;
               timeout := PDict (list_to_map [("A", PStr "1"); ("PATH", PStr "/bin")]);
               skip := PBool false; skipreason := PStr "Skipped" |} _).
  vm_compute. reflexivity.
Defined.

(** ** Which files are run *)

Lemma split_on_nonempty sep s : split_on sep s ≠ [].
Proof.
  destruct s as [|c s]; cbn; [discriminate|].
  destruct (Ascii.eqb c sep); [discriminate|]. now destruct (split_on sep s).
Qed.

Lemma split_on_segments sep s :
  Forall (fun seg => has_char sep seg = false) (split_on sep s).
Proof.
  induction s as [|c s IH]; cbn; [now repeat constructor|].
  destruct (Ascii.eqb c sep) eqn:E; [now constructor|].
  destruct (split_on sep s) as [|seg segs].
  - repeat constructor. cbn. now rewrite E.
  - apply Forall_cons in IH as [H1 H2]. constructor; [|exact H2].
    cbn. now rewrite E.
Qed.

Lemma split_on_none sep s : has_char sep s = false -> split_on sep s = [s].
Proof.
  induction s as [|c s IH]; cbn; [reflexivity|].
  intros [E H]%orb_false_iff. rewrite E, (IH H). reflexivity.
Qed.

Lemma leading_has_char c s : leading c s ≠ 0%nat -> has_char c s = true.
Proof.
  destruct s as [|a s]; cbn; [congruence|].
  destruct (Ascii.eqb a c); [reflexivity|congruence].
Qed.

Lemma last_app_nonempty (l1 l2 : list string) d :
  l2 ≠ [] -> List.last (l1 ++ l2) d = List.last l2 d.
Proof.
  intros H. induction l1 as [|a l1 IH]; [reflexivity|].
  cbn [app]. change (List.last (a :: l1 ++ l2) d)
    with (match l1 ++ l2 with [] => a | _ => List.last (l1 ++ l2) d end).
  destruct (l1 ++ l2) eqn:E; [|exact IH].
  apply app_eq_nil in E as [_ E]. contradiction.
Qed.

Lemma last_In_nonempty (l : list string) d : l ≠ [] -> In (List.last l d) l.
Proof.
  induction l as [|a l IH]; [congruence|]. intros _.
  destruct l as [|b l]; [now left|]. right. apply IH. discriminate.
Qed.

Lemma parts_parse_segments s seg :
  In seg (parts (parse s)) -> has_char "/" seg = false /\ keep_segment seg = true.
Proof.
  cbn [parse parts]. intros [Hin Hk]%filter_In. split; [|exact Hk].
  pose proof (split_on_segments "/" s) as H. rewrite List.Forall_forall in H.
  now apply H.
Qed.

(** A path whose name is the string that was joined to it: the string is
    one segment, which was appended. *)
Lemma name_joinpath_self cd n :
  (parts (parse n) = [] -> PathLib.name cd ≠ n) ->
  PathLib.name (joinpath cd n) = n ->
  has_char "/" n = false /\
  joinpath cd n = {| root := root cd; parts := parts cd ++ [n] |}.
Proof.
  intros Hcd. unfold joinpath, PathLib.name.
  destruct (String.eqb (root (parse n)) "") eqn:Er; cbn [parts].
  - destruct (parts (parse n)) as [|seg segs] eqn:Ep.
    + rewrite app_nil_r. intros H. now destruct (Hcd eq_refl).
    + rewrite last_app_nonempty by discriminate. intros Hl.
      assert (In n (parts (parse n))) as Hin.
      { rewrite Ep, <- Hl at 1. apply last_In_nonempty. discriminate. }
      apply parts_parse_segments in Hin as [Hs Hk]. split; [exact Hs|].
      f_equal. f_equal. rewrite <- Ep. cbn [parse parts].
      rewrite (split_on_none _ _ Hs). cbn [List.filter]. now rewrite Hk.
  - assert (has_char "/" n = true) as Hh.
    { apply leading_has_char. intros H0. cbn [parse root] in Er. now rewrite H0 in Er. }
    intros Hl. destruct (parts (parse n)) as [|seg segs] eqn:Ep.
    + cbn in Hl. subst n. discriminate.
    + assert (In n (parts (parse n))) as Hin.
      { rewrite Ep, <- Hl at 1. apply last_In_nonempty. discriminate. }
      apply parts_parse_segments in Hin as [Hs _]. congruence.
Qed.

Lemma name_of_case_dir base : PathLib.name (joinpath base "test-case") = "test-case".
Proof.
  unfold joinpath, PathLib.name.
  change (parse "test-case") with {| root := ""; parts := ["test-case"] |}.
  cbn [root parts String.eqb]. apply last_app_nonempty. discriminate.
Qed.

(** X16. Only a file that lies in the case directory itself is announced
    and run: when [runcase] gets as far as the pre-run hook, the name of
    the case has no slash in it, the path that was checked with
    [is_file()] and that the command is made of is the case directory with
    that one segment appended.  A name that leads elsewhere (["../x.sh"],
    ["sub/x.sh"], ["/bin/x.sh"]) is an unknown case. *)
Theorem only_files_of_the_case_dir_are_run base self is_file case w cmd :
  _case_dir self = joinpath base "test-case" ->
  BeforeCmdRun cmd ∈ (runcase self is_file case w).1.2 ->
  exists n a,
    name case = PStr n /\ args case = PStr a /\
    has_char "/" n = false /\
    is_file {| root := root (_case_dir self); parts := parts (_case_dir self) ++ [n] |} = true /\
    __resolve_cmd {| root := root (_case_dir self); parts := parts (_case_dir self) ++ [n] |} a
    = Some cmd.
Proof.
  intros Hcd. unfold runcase.
  destruct (truthy (skip case));
    [intros [H|H]%elem_of_cons; [discriminate|inversion H]|].
  destruct (name case) as [| | | |n| |]; try (intros H; now inversion H).
  destruct (args case) as [| | | |a| |]; try (intros H; now inversion H).
  destruct (__resolve_cmd _ _) as [cmd0|] eqn:Ecmd;
    [|intros [H|H]%elem_of_cons; [discriminate|inversion H]].
  destruct (String.eqb _ n) eqn:En; cbn [andb negb];
    [|intros [H|H]%elem_of_cons; [discriminate|inversion H]].
  destruct (is_file _) eqn:Ef; cbn [negb];
    [|intros [H|H]%elem_of_cons; [discriminate|inversion H]].
  apply String.eqb_eq in En.
  apply name_joinpath_self in En as [Hs Hj].
  2:{ intros Hp Hn. rewrite Hcd, name_of_case_dir in Hn. subst n. discriminate. }
  rewrite Hj in Ecmd, Ef.
  assert (BeforeCmdRun cmd ∈ [BeforeCmdRun cmd0] -> cmd = cmd0) as Hone.
  { intros H%list_elem_of_singleton. congruence. }
  intros Hin. assert (cmd = cmd0) as ->; [|now exists n, a].
  destruct (dry_run self).
  - apply elem_of_cons in Hin as [H|H]; [congruence|].
    apply elem_of_cons in H as [H|H]; [discriminate|inversion H].
  - pose proof (try_statement_of_try self case cmd0 w) as Ht.
    destruct (try_statement self case cmd0 w) as [[self' tr] r]. cbn [fst snd] in *.
    apply elem_of_cons in Hin as [H|H]; [congruence|].
    rewrite Forall_forall in Ht. apply Ht in H. discriminate.
Qed.

Lemma only_files_of_the_case_dir_are_run_witness :
  exists n a,
    name sleep_case = PStr n /\ args sleep_case = PStr a /\
    has_char "/" n = false /\
    test_case_dir {| root := root (_case_dir runner);
                     parts := parts (_case_dir runner) ++ [n] |} = true /\
    __resolve_cmd {| root := root (_case_dir runner);
                     parts := parts (_case_dir runner) ++ [n] |} a
    = Some sleep_cmd.
Proof.
  apply (only_files_of_the_case_dir_are_run sof_test_dir runner test_case_dir sleep_case
           exits_normally sleep_cmd eq_refl).
  vm_compute. apply list_elem_of_here.
Defined.

(** ** What is printed *)




Lemma hook_exit_code e v :
  Print [Text "Exit code:"; v] Stderr newline ∈ hook e ->
  exists c i t, e = Exit (Some c) i t /\ c ≠ 0 /\ v = Value (PInt c).
Proof.
  assert (Hsep : Print [Text "Exit code:"; v] Stderr newline
                 ≠ Print [Text (repeat_string "=" 20)] Stderr newline) by discriminate.
  destruct e as [cmd|cmd|err|p|c i t|n r|l| | | | |]; cbn [hook];
    try (intros H; now inversion H).
  - unfold _before_cmd_run. intros H.
    repeat (apply elem_of_cons in H as [H|H]; [discriminate|]). inversion H.
  - unfold _handle_unknown_exception. intros H.
    repeat (apply elem_of_cons in H as [H|H]; [discriminate|]). inversion H.
  - unfold _handle_unknown_case. intros H.
    repeat (apply elem_of_cons in H as [H|H]; [discriminate|]). inversion H.
  - unfold _handle_exit. rewrite !elem_of_app.
    intros [H|[H|[H|[H|H]]]].
    + apply list_elem_of_singleton in H. contradiction.
    + destruct t as [[]|]; try (now inversion H);
        apply list_elem_of_singleton in H; discriminate.
    + destruct i; [|now inversion H]. apply list_elem_of_singleton in H. discriminate.
    + destruct c as [c|]; [|now inversion H].
      destruct (truthy (PInt c)) eqn:Hc; [|now inversion H].
      apply list_elem_of_singleton in H. injection H as ->.
      exists c, i, t. repeat split. cbn in Hc. intros ->. discriminate.
    + apply list_elem_of_singleton in H. contradiction.
  - unfold _handle_skip. intros H.
    repeat (apply elem_of_cons in H as [H|H]; [discriminate|]). inversion H.
Qed.

(** X18. A line [Exit code: c] is printed only for a child that has
    exited with a code other than 0, and [c] is that code: an exit with 0
    prints no such line, nor does a dry run, a skipped or an unknown case,
    or a run in which the child has not exited. *)
Theorem exit_code_line_is_the_childs_failure self is_file case w v :
  Print [Text "Exit code:"; v] Stderr newline ∈ printed (runcase self is_file case w).1.2 ->
  exists c, v = Value (PInt c) /\ c ≠ 0 /\
            dry_run self = false /\ first_exit (script w) = Some c.
Proof.
  intros H. apply list_elem_of_In, in_flat_map in H as (e & He & H).
  apply list_elem_of_In in He, H.
  apply hook_exit_code in H as (c & i & t & -> & Hc & ->).
  exists c. split; [reflexivity|]. split; [exact Hc|].
  destruct (runcase_cases self is_file case w)
    as [(cmd & _ & _ & Hdry & E) | (_ & _ & Hf & _)].
  - split; [exact Hdry|]. rewrite E in He.
    pose proof (try_statement_exit_code self case cmd w c i t) as Ht.
    destruct (try_statement self case cmd w) as [[self' tr] r]. cbn [fst snd] in *.
    apply elem_of_cons in He as [He|He]; [discriminate|auto].
  - rewrite Forall_forall in Hf. apply Hf in He.
    destruct c, i, t; discriminate || now contradict Hc.
Qed.

Lemma exit_code_line_is_the_childs_failure_witness :
  exists c, Value (PInt (-15)) = Value (PInt c) /\ c ≠ 0 /\
            dry_run runner = false /\ first_exit (script interrupted_alive) = Some c.
Proof.
  apply (exit_code_line_is_the_childs_failure runner test_case_dir sleep_case
           interrupted_alive (Value (PInt (-15)))).
  vm_compute. repeat (first [apply list_elem_of_here|apply list_elem_of_further]).
Defined.
